(** * on-screen-controllers: the pointer-to-input engines of the four widgets

    A shallow embedding of the event handlers of
    [src/joystick/Joystick.ts] (JoystickController) and
    [src/joystick/Dpad.ts] (DpadController, RetrackableSlider,
    ButtonController), and the properties of the specification that are
    about them.

    Modelling conventions.
    - A JavaScript number is a real number: arithmetic is exact and there
      is no NaN, no infinity and no signed zero.  [Math.round],
      [Math.hypot], [Math.atan2], [Math.min] and [Math.max] are the
      mathematical functions of the ECMAScript definition.
    - Where a property depends on how a double is rounded (the sector
      and the dead zone of the dpad, the value of the slider), the
      handler is taken over the arithmetic of module [Fp], in which every
      operation rounds; without rounding it is the handler above.
    - A handler is a function from the event and the widget's fields to
      the new fields and the list of callbacks it invoked, in order.
    - What a handler reads from the DOM ([getBoundingClientRect],
      [offsetWidth]) comes with the event that triggers the read.
    - Styling, logging, [preventDefault] and [setPointerCapture] have no
      effect on the fields or on the callbacks and are left out. *)

From Stdlib Require Import Reals Lra Lia List ZArith Bool.
From Stdlib Require String.
Import ListNotations.

Open Scope R_scope.

(** ** JavaScript numbers *)

Module JS.

(** [a > b], [a <= b] and [a !== b] on numbers. *)
Definition gt (a b : R) : bool := if Rgt_dec a b then true else false.
Definition le (a b : R) : bool := if Rle_dec a b then true else false.
Definition strict_ne (a b : R) : bool :=
  if Req_dec_T a b then false else true.

(** A number in a condition: [if (n)] takes the branch unless [n] is 0. *)
Definition truthy (a : R) : bool := strict_ne a 0.

(** [o || d] for an optional numeric option of a constructor. *)
Definition or_default (o : option R) (d : R) : R :=
  match o with
  | Some v => if truthy v then v else d
  | None => d
  end.

(** [Math.round]: the nearest integer, a tie going up. *)
Definition Math_round (x : R) : R := IZR (Zfloor (x + / 2)).

Definition Math_hypot (x y : R) : R := sqrt (x * x + y * y).

Definition Math_min (a b : R) : R := Rmin a b.
Definition Math_max (a b : R) : R := Rmax a b.

(** [Math.atan2 y x]: the angle of the point [(x, y)], in (-PI, PI]. *)
Definition Math_atan2 (y x : R) : R :=
  if Rlt_dec 0 x then atan (y / x)
  else if Rlt_dec x 0 then
    if Rle_dec 0 y then atan (y / x) + PI else atan (y / x) - PI
  else if Rlt_dec 0 y then PI / 2
  else if Rlt_dec y 0 then - PI / 2
  else 0.

End JS.

Infix ">?" := JS.gt (at level 70, no associativity) : R_scope.
Infix "<=?" := JS.le (at level 70, no associativity) : R_scope.
Infix "!==" := JS.strict_ne (at level 70, no associativity) : R_scope.

(** ** What the handlers receive *)

Module Dom.

(** The fields of a [DOMRect] the handlers read. *)
Record DOMRect : Type := mkRect {
  left : R;
  top : R;
  width : R;
  height : R
}.

(** The fields of a [PointerEvent] the handlers read; a [Touch] has the
    same coordinates and an [identifier] in place of [pointerId]. *)
Record PointerEvent : Type := mkPointer {
  pointerId : Z;
  clientX : R;
  clientY : R
}.

End Dom.

(** [baseRect.left + baseRect.width / 2], and the same from the top. *)
Definition centerX (r : Dom.DOMRect) : R := Dom.left r + Dom.width r / 2.
Definition centerY (r : Dom.DOMRect) : R := Dom.top r + Dom.height r / 2.

(** Rotation of the offset [(x, y)] by [angle] radians, as both the
    joystick and the dpad write it out. *)
Definition rotateBy (angle x y : R) : R * R :=
  (x * cos angle - y * sin angle, x * sin angle + y * cos angle).

(** ** ButtonController *)

Module Button.

Record ButtonController : Type := mkButton {
  isPressed : bool
}.

Inductive Callback : Type :=
| onPressCallback
| onReleaseCallback.

Definition onButtonUp (s : ButtonController)
  : ButtonController * list Callback :=
  if negb (isPressed s) then (s, [])
  else (mkButton false, [onReleaseCallback]).

Definition onButtonDown (s : ButtonController)
  : ButtonController * list Callback :=
  if isPressed s then (s, [])
  else (mkButton true, [onPressCallback]).

End Button.

(** ** JoystickController *)

Module Joystick.

(** The options of the constructor that the handlers depend on. *)
Record JoystickControllerOptions : Type := mkOptions {
  opt_rotation : option R;
  opt_radius : option R
}.

(** What [updateContainerRectangle] measures. *)
Record Layout : Type := mkLayout {
  boundingClientRect : Dom.DOMRect;
  thumbOffsetWidth : R
}.

Record JoystickController : Type := mkJoystick {
  rotation : R;
  radius : R;
  isPressed : bool;
  baseRect : Dom.DOMRect;
  thumbMaxDistance : R
}.

Inductive Callback : Type :=
| onInputCallback (x y : R)
| onReleaseCallback (x y : R).

Definition updateContainerRectangle (dom : Layout) (s : JoystickController)
  : JoystickController :=
  {| rotation := rotation s;
     radius := radius s;
     isPressed := isPressed s;
     baseRect := boundingClientRect dom;
     thumbMaxDistance := (radius s - thumbOffsetWidth dom) / 1.5 |}.

(** The constructor followed by [init], which measures once. *)
Definition new (options : JoystickControllerOptions) (dom : Layout)
  : JoystickController :=
  updateContainerRectangle dom
    {| rotation := JS.or_default (opt_rotation options) 0;
       radius := JS.or_default (opt_radius options) 5;
       isPressed := false;
       baseRect := boundingClientRect dom;
       thumbMaxDistance := 0 |}.

Definition set_isPressed (b : bool) (s : JoystickController)
  : JoystickController :=
  {| rotation := rotation s;
     radius := radius s;
     isPressed := b;
     baseRect := baseRect s;
     thumbMaxDistance := thumbMaxDistance s |}.

Definition onJoysickUp (e : Dom.PointerEvent) (s : JoystickController)
  : JoystickController * list Callback :=
  (set_isPressed false s, [onReleaseCallback 0 0]).

(** The clamp of [onJoysickMove]: an offset farther than [maxd] from the
    center is scaled by [maxd / distance]. *)
Definition clamp (maxd x y : R) : R * R :=
  let distance := JS.Math_hypot x y in
  if distance >? maxd
  then (x * (maxd / distance), y * (maxd / distance))
  else (x, y).

(** The rotation of [onJoysickMove], skipped when [rotation] is 0. *)
Definition unrotate (rot x y : R) : R * R :=
  if JS.truthy rot
  then rotateBy (- rot * PI / 180) x y
  else (x, y).

(** The two decimal places of [onJoysickMove]. *)
Definition round2 (v : R) : R := JS.Math_round (v * 100) / 100.

(** What [onJoysickMove] makes of the offset [(x, y)] of the pointer from
    the center: clamp, rotate back, normalize, round. *)
Definition mapOffset (rot maxd x y : R) : R * R :=
  let '(x, y) := clamp maxd x y in
  let '(x, y) := unrotate rot x y in
  (round2 (x / maxd), round2 (- y / maxd)).

(** The pair [onJoysickMove] hands to [onInputCallback]. *)
Definition output (s : JoystickController) (e : Dom.PointerEvent) : R * R :=
  let baseCenterX := centerX (baseRect s) in
  let baseCenterY := centerY (baseRect s) in
  let x := Dom.clientX e - baseCenterX in
  let y := Dom.clientY e - baseCenterY in
  mapOffset (rotation s) (thumbMaxDistance s) x y.

Definition onJoysickMove (e : Dom.PointerEvent) (s : JoystickController)
  : JoystickController * list Callback :=
  if negb (isPressed s) then (s, [])
  else
    let '(x, y) := output s e in
    (s, [onInputCallback x y]).

Definition onJoysickDown (dom : Layout) (e : Dom.PointerEvent)
  (s : JoystickController) : JoystickController * list Callback :=
  let s := set_isPressed true s in
  let s := updateContainerRectangle dom s in
  onJoysickMove e s.

(** The listeners [init] registers on the base element. *)
Inductive Event : Type :=
| pointerup (e : Dom.PointerEvent)
| pointercancel (e : Dom.PointerEvent)
| pointerdown (dom : Layout) (e : Dom.PointerEvent)
| pointermove (e : Dom.PointerEvent).

Definition dispatch (ev : Event) (s : JoystickController)
  : JoystickController * list Callback :=
  match ev with
  | pointerup e => onJoysickUp e s
  | pointercancel e => onJoysickUp e s
  | pointerdown dom e => onJoysickDown dom e s
  | pointermove e => onJoysickMove e s
  end.

(** The events of a list handled one after the other, with every
    callback invoked on the way. *)
Fixpoint run (evs : list Event) (s : JoystickController)
  : JoystickController * list Callback :=
  match evs with
  | [] => (s, [])
  | ev :: evs' =>
      let '(s1, out1) := dispatch ev s in
      let '(s2, out2) := run evs' s1 in
      (s2, out1 ++ out2)
  end.

End Joystick.

(** ** DpadController *)

Module Dpad.

Inductive direction : Type :=
| center
| up
| down
| left
| right
| up_right
| down_right
| up_left
| down_left.

Definition direction_eq_dec (a b : direction) : {a = b} + {a <> b}.
Proof. decide equality. Defined.

(** [a !== b] on directions. *)
Definition direction_ne (a b : direction) : bool :=
  if direction_eq_dec a b then false else true.

(** The options of the constructor that the handlers depend on. *)
Record DpadOptions : Type := mkOptions {
  centerRadiusThreshold : option R;
  opt_rotation : option R
}.

Record DpadController : Type := mkDpad {
  centerThreshold : R;
  rotation : R;
  currentDirection : direction;
  pointerId : Z;
  baseRect : option Dom.DOMRect;
  inputRegisterDistance : R;
  isPressed : bool
}.

Inductive Callback : Type :=
| onPressCallback (d : direction)
| onReleaseCallback (d : direction).

(** The constructor: no rectangle is measured before the first press. *)
Definition new (options : DpadOptions) : DpadController :=
  {| centerThreshold :=
       match centerRadiusThreshold options with
       | None => 0.25
       | Some t => t
       end;
     rotation := JS.or_default (opt_rotation options) 0;
     currentDirection := center;
     pointerId := (-1)%Z;
     baseRect := None;
     inputRegisterDistance := 0;
     isPressed := false |}.

Definition updateContainerRectangle (rect : Dom.DOMRect) (s : DpadController)
  : DpadController :=
  {| centerThreshold := centerThreshold s;
     rotation := rotation s;
     currentDirection := currentDirection s;
     pointerId := pointerId s;
     baseRect := Some rect;
     inputRegisterDistance :=
       (JS.Math_min (Dom.width rect) (Dom.height rect) / 2)
       * centerThreshold s;
     isPressed := isPressed s |}.

Definition onDpadUp (s : DpadController) : DpadController * list Callback :=
  ({| centerThreshold := centerThreshold s;
      rotation := rotation s;
      currentDirection := center;
      pointerId := (-1)%Z;
      baseRect := baseRect s;
      inputRegisterDistance := inputRegisterDistance s;
      isPressed := false |},
   [onReleaseCallback center]).

(** The chain of comparisons of [onDpadMove], on the angle in degrees and
    the distance from the center. *)
Definition classify (angle centerDistance inputRegisterDistance : R)
  : direction :=
  if centerDistance >? inputRegisterDistance then
    if (angle >? -22.5) && (angle <=? 22.5) then right
    else if (angle >? 22.5) && (angle <=? 67.5) then up_right
    else if (angle >? 67.5) && (angle <=? 112.5) then up
    else if (angle >? 112.5) && (angle <=? 157.5) then up_left
    else if (angle >? 157.5) || (angle <=? -157.5) then left
    else if (angle >? -157.5) && (angle <=? -112.5) then down_left
    else if (angle >? -112.5) && (angle <=? -67.5) then down
    else if (angle >? -67.5) && (angle <=? -22.5) then down_right
    else center
  else center.

(** The offset of the pointer from the center of [rect], rotated back by
    [rotation] degrees unless [rotation] is 0. *)
Definition offset (rot : R) (rect : Dom.DOMRect) (e : Dom.PointerEvent)
  : R * R :=
  let baseCenterX := centerX rect in
  let baseCenterY := centerY rect in
  let x := Dom.clientX e - baseCenterX in
  let y := Dom.clientY e - baseCenterY in
  if rot !== 0
  then rotateBy (- rot * PI / 180) x y
  else (x, y).

Definition angleOf (x y : R) : R := JS.Math_atan2 (- y) x * 180 / PI.

Definition centerDistanceOf (x y : R) : R := sqrt (x * x + y * y).

(** The direction [onDpadMove] computes for an event. *)
Definition directionOf (s : DpadController) (rect : Dom.DOMRect)
  (e : Dom.PointerEvent) : direction :=
  let '(x, y) := offset (rotation s) rect e in
  classify (angleOf x y) (centerDistanceOf x y) (inputRegisterDistance s).

Definition set_currentDirection (d : direction) (s : DpadController)
  : DpadController :=
  {| centerThreshold := centerThreshold s;
     rotation := rotation s;
     currentDirection := d;
     pointerId := pointerId s;
     baseRect := baseRect s;
     inputRegisterDistance := inputRegisterDistance s;
     isPressed := isPressed s |}.

(** [None] is the TypeError of reading [baseRect!.left] while [baseRect]
    is undefined; it is raised before any field is assigned. *)
Definition onDpadMove (e : Dom.PointerEvent) (s : DpadController)
  : option (DpadController * list Callback) :=
  if negb (isPressed s) then Some (s, [])
  else
    match baseRect s with
    | None => None
    | Some rect =>
        let direction := directionOf s rect e in
        if direction_ne (currentDirection s) direction
        then Some (set_currentDirection direction s,
                   [onPressCallback direction])
        else Some (s, [])
    end.

(** What [onDpadDown] can be called with: a pointer event, or a touch
    event with its list of touches. *)
Inductive DownEvent : Type :=
| PointerEvent (e : Dom.PointerEvent)
| TouchEvent (touches : list Dom.PointerEvent).

Definition acquire (id : Z) (rect : Dom.DOMRect) (s : DpadController)
  : DpadController :=
  updateContainerRectangle rect
    {| centerThreshold := centerThreshold s;
       rotation := rotation s;
       currentDirection := currentDirection s;
       pointerId := id;
       baseRect := baseRect s;
       inputRegisterDistance := inputRegisterDistance s;
       isPressed := true |}.

Definition onDpadDown (rect : Dom.DOMRect) (e : DownEvent)
  (s : DpadController) : option (DpadController * list Callback) :=
  match e with
  | PointerEvent pe => onDpadMove pe (acquire (Dom.pointerId pe) rect s)
  | TouchEvent (t :: _) => onDpadMove t (acquire (Dom.pointerId t) rect s)
  | TouchEvent [] => Some (s, [])
  end.

(** A run of move events from one state: the callbacks invoked, in order,
    and the last state.  A handler that raises leaves the fields as they
    were and invokes nothing. *)
Fixpoint moves (es : list Dom.PointerEvent) (s : DpadController)
  : DpadController * list Callback :=
  match es with
  | [] => (s, [])
  | e :: es' =>
      match onDpadMove e s with
      | None => moves es' s
      | Some (s1, out1) =>
          let '(s2, out2) := moves es' s1 in
          (s2, out1 ++ out2)
      end
  end.

End Dpad.

(** ** RetrackableSlider *)

Module Slider.

(** The two values of the option [direction]. *)
Inductive SliderOrientation : Type :=
| vertical
| horizontal.

Record RetrackableSlider : Type := mkSlider {
  direction : SliderOrientation;
  baseRect : option Dom.DOMRect;
  isPressed : bool;
  valuePercent : R
}.

Inductive Callback : Type :=
| onSlideCallback (value : R)
| onReleaseCallback.

(** The constructor: [direction] defaults to vertical. *)
Definition new (opt_direction : option SliderOrientation) : RetrackableSlider :=
  {| direction := match opt_direction with Some d => d | None => vertical end;
     baseRect := None;
     isPressed := false;
     valuePercent := 0 |}.

Definition set_isPressed (b : bool) (s : RetrackableSlider)
  : RetrackableSlider :=
  {| direction := direction s;
     baseRect := baseRect s;
     isPressed := b;
     valuePercent := valuePercent s |}.

Definition set_valuePercent (v : R) (s : RetrackableSlider)
  : RetrackableSlider :=
  {| direction := direction s;
     baseRect := baseRect s;
     isPressed := isPressed s;
     valuePercent := v |}.

Definition updateContainerRectangle (rect : Dom.DOMRect)
  (s : RetrackableSlider) : RetrackableSlider :=
  {| direction := direction s;
     baseRect := Some rect;
     isPressed := isPressed s;
     valuePercent := valuePercent s |}.

Definition onSliderUp (e : Dom.PointerEvent) (s : RetrackableSlider)
  : RetrackableSlider * list Callback :=
  let s := set_isPressed false s in
  if valuePercent s !== 0
  then (set_valuePercent 0 s, [onReleaseCallback])
  else (s, []).

(** The value [setSliderValue] computes: the position along the axis in
    percent, clamped to [0, 100] and rounded. *)
Definition valueOf (d : SliderOrientation) (rect : Dom.DOMRect)
  (e : Dom.PointerEvent) : R :=
  let value :=
    match d with
    | vertical =>
        100 - ((Dom.clientY e - Dom.top rect) / Dom.height rect) * 100
    | horizontal =>
        ((Dom.clientX e - Dom.left rect) / Dom.width rect) * 100
    end in
  JS.Math_round (JS.Math_max 0 (JS.Math_min 100 value)).

(** [rect] is what [getBoundingClientRect] answers during the call. *)
Definition setSliderValue (rect : Dom.DOMRect) (e : Dom.PointerEvent)
  (s : RetrackableSlider) : RetrackableSlider * list Callback :=
  let s := updateContainerRectangle rect s in
  let value := valueOf (direction s) rect e in
  if valuePercent s !== value
  then (set_valuePercent value s, [onSlideCallback value])
  else (s, []).

Definition onSliderDown (rect : Dom.DOMRect) (e : Dom.PointerEvent)
  (s : RetrackableSlider) : RetrackableSlider * list Callback :=
  setSliderValue rect e (set_isPressed true s).

Definition onSliderMove (rect : Dom.DOMRect) (e : Dom.PointerEvent)
  (s : RetrackableSlider) : RetrackableSlider * list Callback :=
  if negb (isPressed s) then (s, [])
  else setSliderValue rect e s.

End Slider.

(** ** Vocabulary of the properties *)

(** A release is a [pointerup] or, with [true], a [pointercancel]. *)
Definition joystick_release (ce : bool * Dom.PointerEvent) : Joystick.Event :=
  if fst ce then Joystick.pointercancel (snd ce)
  else Joystick.pointerup (snd ce).

(** Where [transform: rotate(deg)], which [render] sets on the base
    element, displays the point at offset [(x, y)] from the center. *)
Definition cssRotate (deg x y : R) : R * R := rotateBy (deg * PI / 180) x y.

(** The sector table of the specification for the dpad, on the angle in
    degrees: each sector is open below and closed above. *)
Inductive in_sector (a : R) : Dpad.direction -> Prop :=
| sector_right : -22.5 < a <= 22.5 -> in_sector a Dpad.right
| sector_up_right : 22.5 < a <= 67.5 -> in_sector a Dpad.up_right
| sector_up : 67.5 < a <= 112.5 -> in_sector a Dpad.up
| sector_up_left : 112.5 < a <= 157.5 -> in_sector a Dpad.up_left
| sector_left :
    157.5 < a <= 180 \/ -180 < a <= -157.5 -> in_sector a Dpad.left
| sector_down_left : -157.5 < a <= -112.5 -> in_sector a Dpad.down_left
| sector_down : -112.5 < a <= -67.5 -> in_sector a Dpad.down
| sector_down_right : -67.5 < a <= -22.5 -> in_sector a Dpad.down_right.

(** ** The rest of the handlers' code *)

(** [Math.pow] for a positive base. *)
Definition Math_pow (x y : R) : R := Rpower x y.

(** *** Button: listeners and border *)

Module ButtonEvents.

(** The listeners of [init]: in [Dpad.ts] on touch and mouse events of the
    base element, in [Button.ts] on pointer events of the container. *)
Inductive Event : Type :=
| touchstart
| touchend
| mousedown
| mouseup
| mouseleave
| pointerdown
| pointerup.

Definition dispatch (ev : Event) (s : Button.ButtonController)
  : Button.ButtonController * list Button.Callback :=
  match ev with
  | touchstart => Button.onButtonDown s
  | touchend => Button.onButtonUp s
  | mousedown => Button.onButtonDown s
  | mouseup => Button.onButtonUp s
  | mouseleave => Button.onButtonUp s
  | pointerdown => Button.onButtonDown s
  | pointerup => Button.onButtonUp s
  end.

Fixpoint run (evs : list Event) (s : Button.ButtonController)
  : Button.ButtonController * list Button.Callback :=
  match evs with
  | [] => (s, [])
  | ev :: evs' =>
      let '(s1, out1) := dispatch ev s in
      let '(s2, out2) := run evs' s1 in
      (s2, out1 ++ out2)
  end.

(** A list of callbacks that takes turns, starting with a release when
    [pressed] and with a press otherwise. *)
Fixpoint alternates (pressed : bool) (out : list Button.Callback) : bool :=
  match out with
  | [] => true
  | Button.onPressCallback :: out' => negb pressed && alternates true out'
  | Button.onReleaseCallback :: out' => pressed && alternates false out'
  end.

(** The number [render] writes as the border radius, in percent. *)
Definition borderRadius (radius : R) : R := Math_pow (radius / 100) 1.5 * 50.

End ButtonEvents.

(** *** Joystick: the thumb *)

Module JoystickView.

(** The pair [(x, y)] of the [translate(calc(-50% + x px), calc(-50% + y px))]
    that [onJoysickMove] sets on the thumb: the offset of the pointer,
    clamped and rotated back. *)
Definition thumbTranslate (s : Joystick.JoystickController)
  (e : Dom.PointerEvent) : R * R :=
  let baseCenterX := centerX (Joystick.baseRect s) in
  let baseCenterY := centerY (Joystick.baseRect s) in
  let x := Dom.clientX e - baseCenterX in
  let y := Dom.clientY e - baseCenterY in
  let '(x, y) := Joystick.clamp (Joystick.thumbMaxDistance s) x y in
  Joystick.unrotate (Joystick.rotation s) x y.

(** The width in pixels [render] gives the thumb. *)
Definition thumbWidth (radius : R) : R := radius / 2.5.

End JoystickView.

(** *** Dpad: listeners and arms *)

Module DpadEvents.

(** The listeners of [init], each with what its handler measures. *)
Inductive Event : Type :=
| pointerdown (rect : Dom.DOMRect) (e : Dom.PointerEvent)
| pointermove (e : Dom.PointerEvent)
| pointerup
| touchstart (rect : Dom.DOMRect) (touches : list Dom.PointerEvent)
| touchend.

Definition dispatch (ev : Event) (s : Dpad.DpadController)
  : option (Dpad.DpadController * list Dpad.Callback) :=
  match ev with
  | pointerdown rect e => Dpad.onDpadDown rect (Dpad.PointerEvent e) s
  | pointermove e => Dpad.onDpadMove e s
  | pointerup => Some (Dpad.onDpadUp s)
  | touchstart rect touches => Dpad.onDpadDown rect (Dpad.TouchEvent touches) s
  | touchend => Some (Dpad.onDpadUp s)
  end.

(** The events of a list handled one after the other; a handler that
    raises leaves the fields as they were and invokes nothing. *)
Fixpoint run (evs : list Event) (s : Dpad.DpadController)
  : Dpad.DpadController * list Dpad.Callback :=
  match evs with
  | [] => (s, [])
  | ev :: evs' =>
      match dispatch ev s with
      | None => run evs' s
      | Some (s1, out1) =>
          let '(s2, out2) := run evs' s1 in
          (s2, out1 ++ out2)
      end
  end.

(** No press callback of the list reports the direction reported just
    before it, [cur] being the direction before the list. *)
Fixpoint no_repeat (cur : Dpad.direction) (out : list Dpad.Callback) : bool :=
  match out with
  | [] => true
  | Dpad.onPressCallback d :: out' => Dpad.direction_ne cur d && no_repeat d out'
  | Dpad.onReleaseCallback d :: out' => no_repeat d out'
  end.

(** What holds of a dpad between events: while it is pressed a rectangle
    has been measured, the register distance is the one of the rectangle
    measured last, and while it is not pressed it shows [center] and
    holds no pointer. *)
Definition wellFormed (s : Dpad.DpadController) : Prop :=
  (Dpad.isPressed s = true -> Dpad.baseRect s <> None)
  /\ (forall rect : Dom.DOMRect,
        Dpad.baseRect s = Some rect ->
        Dpad.inputRegisterDistance s =
        JS.Math_min (Dom.width rect) (Dom.height rect) / 2
        * Dpad.centerThreshold s)
  /\ (Dpad.isPressed s = false ->
      Dpad.currentDirection s = Dpad.center /\ Dpad.pointerId s = (-1)%Z).

End DpadEvents.

Module DpadView.

Import String.
Local Open Scope string_scope.

(** The string of a direction. *)
Definition name (d : Dpad.direction) : string :=
  match d with
  | Dpad.center => "center"
  | Dpad.up => "up"
  | Dpad.down => "down"
  | Dpad.left => "left"
  | Dpad.right => "right"
  | Dpad.up_right => "up-right"
  | Dpad.down_right => "down-right"
  | Dpad.up_left => "up-left"
  | Dpad.down_left => "down-left"
  end.

(** [s.includes(sub)]. *)
Definition includes (s sub : string) : bool :=
  match index 0 sub s with
  | Some _ => true
  | None => false
  end.

(** The keys of [pathData], in the order [render] draws the arms. *)
Definition pathNames : list string := ["up"; "right"; "down"; "left"].

(** The dpad with what it shows: [basePaths] holds the fill of each arm. *)
Record View : Type := mkView {
  ctl : Dpad.DpadController;
  colorBase : string;
  colorPressed : string;
  basePaths : list (string * string)
}.

Definition set_basePaths (paths : list (string * string)) (v : View) : View :=
  {| ctl := ctl v;
     colorBase := colorBase v;
     colorPressed := colorPressed v;
     basePaths := paths |}.

Definition set_ctl (s : Dpad.DpadController) (v : View) : View :=
  {| ctl := s;
     colorBase := colorBase v;
     colorPressed := colorPressed v;
     basePaths := basePaths v |}.

(** The constructor followed by [render]. *)
Definition new (options : Dpad.DpadOptions) (base pressed : string) : View :=
  {| ctl := Dpad.new options;
     colorBase := base;
     colorPressed := pressed;
     basePaths := map (fun direction => (direction, base)) pathNames |}.

Definition updateDpadUI (v : View) : View :=
  set_basePaths
    (map (fun '(direction, _) =>
            if includes (name (Dpad.currentDirection (ctl v))) direction
            then (direction, colorPressed v)
            else (direction, colorBase v))
         (basePaths v))
    v.

Definition resetDpad (v : View) : View :=
  set_basePaths
    (map (fun '(direction, _) => (direction, colorBase v)) (basePaths v)) v.

Definition onDpadUp (v : View) : View * list Dpad.Callback :=
  let s := ctl v in
  let idle :=
    {| Dpad.centerThreshold := Dpad.centerThreshold s;
       Dpad.rotation := Dpad.rotation s;
       Dpad.currentDirection := Dpad.currentDirection s;
       Dpad.pointerId := (-1)%Z;
       Dpad.baseRect := Dpad.baseRect s;
       Dpad.inputRegisterDistance := Dpad.inputRegisterDistance s;
       Dpad.isPressed := false |} in
  let v := resetDpad (set_ctl idle v) in
  (set_ctl (Dpad.set_currentDirection Dpad.center (ctl v)) v,
   [Dpad.onReleaseCallback Dpad.center]).

Definition onDpadMove (e : Dom.PointerEvent) (v : View)
  : option (View * list Dpad.Callback) :=
  let s := ctl v in
  if negb (Dpad.isPressed s) then Some (v, [])
  else
    match Dpad.baseRect s with
    | None => None
    | Some rect =>
        let direction := Dpad.directionOf s rect e in
        if Dpad.direction_ne (Dpad.currentDirection s) direction
        then Some (updateDpadUI
                     (set_ctl (Dpad.set_currentDirection direction s) v),
                   [Dpad.onPressCallback direction])
        else Some (v, [])
    end.

Definition onDpadDown (rect : Dom.DOMRect) (e : Dpad.DownEvent) (v : View)
  : option (View * list Dpad.Callback) :=
  match e with
  | Dpad.PointerEvent pe =>
      onDpadMove pe (set_ctl (Dpad.acquire (Dom.pointerId pe) rect (ctl v)) v)
  | Dpad.TouchEvent (t :: _) =>
      onDpadMove t (set_ctl (Dpad.acquire (Dom.pointerId t) rect (ctl v)) v)
  | Dpad.TouchEvent [] => Some (v, [])
  end.

Definition dispatch (ev : DpadEvents.Event) (v : View)
  : option (View * list Dpad.Callback) :=
  match ev with
  | DpadEvents.pointerdown rect e => onDpadDown rect (Dpad.PointerEvent e) v
  | DpadEvents.pointermove e => onDpadMove e v
  | DpadEvents.pointerup => Some (onDpadUp v)
  | DpadEvents.touchstart rect touches =>
      onDpadDown rect (Dpad.TouchEvent touches) v
  | DpadEvents.touchend => Some (onDpadUp v)
  end.

Fixpoint run (evs : list DpadEvents.Event) (v : View)
  : View * list Dpad.Callback :=
  match evs with
  | [] => (v, [])
  | ev :: evs' =>
      match dispatch ev v with
      | None => run evs' v
      | Some (v1, out1) =>
          let '(v2, out2) := run evs' v1 in
          (v2, (out1 ++ out2)%list)
      end
  end.

(** The arms shown in the pressed colour. *)
Definition shown (v : View) : list (string * string) :=
  map (fun direction =>
         (direction,
          if includes (name (Dpad.currentDirection (ctl v))) direction
          then colorPressed v else colorBase v))
      pathNames.

End DpadView.

(** *** Slider: listeners *)

Module SliderEvents.

(** The pointer listeners of [init], each with what its handler
    measures. *)
Inductive Event : Type :=
| pointerup (e : Dom.PointerEvent)
| pointerdown (rect : Dom.DOMRect) (e : Dom.PointerEvent)
| pointermove (rect : Dom.DOMRect) (e : Dom.PointerEvent)
| pointercancel (e : Dom.PointerEvent).

Definition dispatch (ev : Event) (s : Slider.RetrackableSlider)
  : Slider.RetrackableSlider * list Slider.Callback :=
  match ev with
  | pointerup e => Slider.onSliderUp e s
  | pointerdown rect e => Slider.onSliderDown rect e s
  | pointermove rect e => Slider.onSliderMove rect e s
  | pointercancel e => Slider.onSliderUp e s
  end.

Fixpoint run (evs : list Event) (s : Slider.RetrackableSlider)
  : Slider.RetrackableSlider * list Slider.Callback :=
  match evs with
  | [] => (s, [])
  | ev :: evs' =>
      let '(s1, out1) := dispatch ev s in
      let '(s2, out2) := run evs' s1 in
      (s2, out1 ++ out2)
  end.

(** No slide callback of the list reports the value the slider had just
    before it, [cur] being the value before the list; a release callback
    leaves the value 0. *)
Fixpoint no_repeat (cur : R) (out : list Slider.Callback) : bool :=
  match out with
  | [] => true
  | Slider.onSlideCallback v :: out' => (cur !== v) && no_repeat v out'
  | Slider.onReleaseCallback :: out' => no_repeat 0 out'
  end.

(** An event whose handler measures a rectangle measures one with a
    positive width and height. *)
Definition measurable (ev : Event) : Prop :=
  match ev with
  | pointerdown rect _ => 0 < Dom.width rect /\ 0 < Dom.height rect
  | pointermove rect _ => 0 < Dom.width rect /\ 0 < Dom.height rect
  | pointerup _ => True
  | pointercancel _ => True
  end.

End SliderEvents.

(** ** The arithmetic of doubles *)

(** The handlers compute in double precision.  Where a property depends
    on how a result is rounded, the handler is written over an arithmetic
    [A]: a sum, difference, product, quotient or square root is the exact
    result rounded by [rnd A]; [Math.cos], [Math.sin] and [Math.atan2]
    are whatever the engine computes, and [PI A] is [Math.PI].  Negation,
    comparisons, [Math.min], [Math.max] and [Math.round] are exact on
    doubles.  Values are finite: no NaN and no infinity. *)

Module Fp.

Record Arith : Type := mkArith {
  rnd : R -> R;
  cos : R -> R;
  sin : R -> R;
  atan2 : R -> R -> R;
  PI : R
}.

Definition add (A : Arith) (x y : R) : R := rnd A (x + y).
Definition sub (A : Arith) (x y : R) : R := rnd A (x - y).
Definition mul (A : Arith) (x y : R) : R := rnd A (x * y).
Definition div (A : Arith) (x y : R) : R := rnd A (x / y).
Definition sqrt (A : Arith) (x : R) : R := rnd A (R_sqrt.sqrt x).

(** The arithmetic without rounding, of the definitions above. *)
Definition exact : Arith :=
  {| rnd := fun x => x;
     cos := Rtrigo_def.cos;
     sin := Rtrigo_def.sin;
     atan2 := JS.Math_atan2;
     PI := Rtrigo1.PI |}.

(** What rounding to nearest keeps: the order, and the doubles 0, 1 and
    100. *)
Record Rounds (A : Arith) : Prop := mkRounds {
  rnd_le : forall x y : R, x <= y -> rnd A x <= rnd A y;
  rnd_0 : rnd A 0 = 0;
  rnd_1 : rnd A 1 = 1;
  rnd_100 : rnd A 100 = 100
}.

(** *** [DpadController.onDpadMove] *)

Definition dpadOffset (A : Arith) (rot : R) (rect : Dom.DOMRect)
  (e : Dom.PointerEvent) : R * R :=
  let baseCenterX := add A (Dom.left rect) (div A (Dom.width rect) 2) in
  let baseCenterY := add A (Dom.top rect) (div A (Dom.height rect) 2) in
  let x := sub A (Dom.clientX e) baseCenterX in
  let y := sub A (Dom.clientY e) baseCenterY in
  if rot !== 0
  then
    let angle := div A (mul A (- rot) (PI A)) 180 in
    let x1 := sub A (mul A x (cos A angle)) (mul A y (sin A angle)) in
    let y1 := add A (mul A x (sin A angle)) (mul A y (cos A angle)) in
    (x1, y1)
  else (x, y).

Definition dpadAngle (A : Arith) (x y : R) : R :=
  div A (mul A (atan2 A (- y) x) 180) (PI A).

Definition dpadCenterDistance (A : Arith) (x y : R) : R :=
  sqrt A (add A (mul A x x) (mul A y y)).

Definition dpadDirectionOf (A : Arith) (s : Dpad.DpadController)
  (rect : Dom.DOMRect) (e : Dom.PointerEvent) : Dpad.direction :=
  let '(x, y) := dpadOffset A (Dpad.rotation s) rect e in
  Dpad.classify (dpadAngle A x y) (dpadCenterDistance A x y)
    (Dpad.inputRegisterDistance s).

Definition onDpadMove (A : Arith) (e : Dom.PointerEvent)
  (s : Dpad.DpadController)
  : option (Dpad.DpadController * list Dpad.Callback) :=
  if negb (Dpad.isPressed s) then Some (s, [])
  else
    match Dpad.baseRect s with
    | None => None
    | Some rect =>
        let direction := dpadDirectionOf A s rect e in
        if Dpad.direction_ne (Dpad.currentDirection s) direction
        then Some (Dpad.set_currentDirection direction s,
                   [Dpad.onPressCallback direction])
        else Some (s, [])
    end.

(** *** [RetrackableSlider.setSliderValue] *)

(** The position along the axis in percent, before it is clamped and
    rounded. *)
Definition sliderPosition (A : Arith) (d : Slider.SliderOrientation)
  (rect : Dom.DOMRect) (e : Dom.PointerEvent) : R :=
  match d with
  | Slider.vertical =>
      sub A 100
        (mul A (div A (sub A (Dom.clientY e) (Dom.top rect))
                      (Dom.height rect)) 100)
  | Slider.horizontal =>
      mul A (div A (sub A (Dom.clientX e) (Dom.left rect))
                   (Dom.width rect)) 100
  end.

Definition sliderValueOf (A : Arith) (d : Slider.SliderOrientation)
  (rect : Dom.DOMRect) (e : Dom.PointerEvent) : R :=
  let value := sliderPosition A d rect e in
  JS.Math_round (JS.Math_max 0 (JS.Math_min 100 value)).

Definition setSliderValue (A : Arith) (rect : Dom.DOMRect)
  (e : Dom.PointerEvent) (s : Slider.RetrackableSlider)
  : Slider.RetrackableSlider * list Slider.Callback :=
  let s := Slider.updateContainerRectangle rect s in
  let value := sliderValueOf A (Slider.direction s) rect e in
  if Slider.valuePercent s !== value
  then (Slider.set_valuePercent value s, [Slider.onSlideCallback value])
  else (s, []).

End Fp.

(** * Properties *)

(** ** Comparisons and rounding *)

Lemma gt_true_iff (a b : R) : (a >? b) = true <-> a > b.
Proof. unfold JS.gt; destruct (Rgt_dec a b); split; congruence || tauto. Qed.

Lemma gt_false_iff (a b : R) : (a >? b) = false <-> a <= b.
Proof.
  unfold JS.gt; destruct (Rgt_dec a b); split; intros; try congruence; lra.
Qed.

Lemma le_true_iff (a b : R) : (a <=? b) = true <-> a <= b.
Proof. unfold JS.le; destruct (Rle_dec a b); split; congruence || tauto. Qed.

Lemma le_false_iff (a b : R) : (a <=? b) = false <-> a > b.
Proof.
  unfold JS.le; destruct (Rle_dec a b); split; intros; try congruence; lra.
Qed.

Lemma strict_ne_true_iff (a b : R) : (a !== b) = true <-> a <> b.
Proof.
  unfold JS.strict_ne; destruct (Req_dec_T a b); split; congruence || tauto.
Qed.

Lemma strict_ne_false_iff (a b : R) : (a !== b) = false <-> a = b.
Proof.
  unfold JS.strict_ne; destruct (Req_dec_T a b); split; congruence || tauto.
Qed.

Lemma strict_ne_refl (a : R) : (a !== a) = false.
Proof. now apply strict_ne_false_iff. Qed.

Lemma truthy_0 : JS.truthy 0 = false.
Proof. apply strict_ne_refl. Qed.

(** Settles a comparison between two numbers that [lra] can order. *)
Ltac js_compare :=
  repeat first
    [ rewrite (proj2 (gt_true_iff _ _)) by lra
    | rewrite (proj2 (gt_false_iff _ _)) by lra
    | rewrite (proj2 (le_true_iff _ _)) by lra
    | rewrite (proj2 (le_false_iff _ _)) by lra
    | rewrite (proj2 (strict_ne_true_iff _ _)) by lra
    | rewrite (proj2 (strict_ne_false_iff _ _)) by lra ].

Lemma Math_round_IZR (z : Z) : JS.Math_round (IZR z) = IZR z.
Proof.
  unfold JS.Math_round. f_equal. apply Zfloor_eq. lra.
Qed.

Lemma Math_round_bound (x : R) :
  x - / 2 < JS.Math_round x <= x + / 2.
Proof.
  unfold JS.Math_round.
  pose proof (Zfloor_bound (x + / 2)). lra.
Qed.

Lemma Math_clamp_round_IZR (z : Z) (v : R) :
  (0 <= z <= 100)%Z -> v = IZR z ->
  JS.Math_round (JS.Math_max 0 (JS.Math_min 100 v)) = IZR z.
Proof.
  intros [H0 H1] ->. apply IZR_le in H0, H1.
  unfold JS.Math_min, JS.Math_max.
  rewrite Rmin_right, Rmax_right by lra. apply Math_round_IZR.
Qed.

Lemma Math_hypot_nonneg (x y : R) : 0 <= JS.Math_hypot x y.
Proof. apply sqrt_pos. Qed.

Lemma Math_hypot_sqr (x y : R) :
  JS.Math_hypot x y * JS.Math_hypot x y = x * x + y * y.
Proof. unfold JS.Math_hypot. apply sqrt_sqrt. nra. Qed.

Lemma Math_hypot_eq (x y d : R) :
  0 <= d -> x * x + y * y = d * d -> JS.Math_hypot x y = d.
Proof.
  intros Hd H. unfold JS.Math_hypot. rewrite H. now apply sqrt_square.
Qed.

Lemma Math_hypot_scale (k x y : R) :
  0 <= k -> JS.Math_hypot (x * k) (y * k) = k * JS.Math_hypot x y.
Proof.
  intros Hk. apply Math_hypot_eq.
  - apply Rmult_le_pos; [exact Hk|apply Math_hypot_nonneg].
  - pose proof (Math_hypot_sqr x y) as Hh.
    replace (k * JS.Math_hypot x y * (k * JS.Math_hypot x y))
      with (k * k * (JS.Math_hypot x y * JS.Math_hypot x y)) by ring.
    rewrite Hh. ring.
Qed.

Lemma Math_hypot_bounds (lo hi x y : R) :
  0 <= lo -> 0 <= hi ->
  lo * lo <= x * x + y * y <= hi * hi ->
  lo <= JS.Math_hypot x y <= hi.
Proof.
  intros Hlo Hhi [H1 H2]. unfold JS.Math_hypot. split.
  - rewrite <- (sqrt_square lo Hlo). now apply sqrt_le_1_alt.
  - rewrite <- (sqrt_square hi Hhi). now apply sqrt_le_1_alt.
Qed.

Lemma Math_atan2_on_positive_x_axis (x y : R) :
  0 < x -> y = 0 -> JS.Math_atan2 (- y) x = 0.
Proof.
  intros Hx ->. unfold JS.Math_atan2.
  destruct (Rlt_dec 0 x) as [_|Hn]; [|contradiction].
  replace (- 0 / x) with 0 by (field; lra). apply atan_0.
Qed.

Lemma Math_atan2_range (y x : R) : - PI < JS.Math_atan2 y x <= PI.
Proof.
  pose proof PI_RGT_0 as Hpi.
  pose proof (atan_bound (y / x)) as Hb.
  unfold JS.Math_atan2.
  destruct (Rlt_dec 0 x) as [Hx|Hx]; [lra|].
  destruct (Rlt_dec x 0) as [Hx'|Hx'].
  - destruct (Rle_dec 0 y) as [Hy|Hy].
    + assert (Hq : y / x <= 0).
      { assert (Hn : 0 <= y * / (- x)).
        { apply Rmult_le_pos; [lra|].
          apply Rlt_le, Rinv_0_lt_compat. lra. }
        replace (y / x) with (- (y * / (- x))) by (field; lra). lra. }
      assert (Ha : atan (y / x) <= 0).
      { destruct Hq as [Hq|Hq].
        - rewrite <- atan_0. now apply Rlt_le, atan_increasing.
        - rewrite Hq, atan_0. lra. }
      lra.
    + assert (Hq : 0 < y / x).
      { replace (y / x) with ((- y) * / (- x)) by (field; lra).
        apply Rmult_lt_0_compat; [lra|]. apply Rinv_0_lt_compat. lra. }
      assert (Ha : 0 < atan (y / x)).
      { rewrite <- atan_0. now apply atan_increasing. }
      lra.
  - destruct (Rlt_dec 0 y); [lra|]. destruct (Rlt_dec y 0); lra.
Qed.

(** ** Rotations *)

Lemma rotateBy_scale (angle k x y : R) :
  rotateBy angle (x * k) (y * k) =
  (fst (rotateBy angle x y) * k, snd (rotateBy angle x y) * k).
Proof. unfold rotateBy. cbn. f_equal; ring. Qed.

Lemma rotateBy_norm (angle x y : R) :
  fst (rotateBy angle x y) * fst (rotateBy angle x y)
  + snd (rotateBy angle x y) * snd (rotateBy angle x y)
  = x * x + y * y.
Proof.
  unfold rotateBy. cbn. pose proof (sin2_cos2 angle) as H.
  unfold Rsqr in H.
  replace ((x * cos angle - y * sin angle) * (x * cos angle - y * sin angle)
           + (x * sin angle + y * cos angle) * (x * sin angle + y * cos angle))
    with ((x * x + y * y) * (sin angle * sin angle + cos angle * cos angle))
    by ring.
  rewrite H. ring.
Qed.

Lemma rotateBy_inverse (angle x y : R) :
  rotateBy (- angle) (fst (rotateBy angle x y)) (snd (rotateBy angle x y))
  = (x, y).
Proof.
  unfold rotateBy. cbn. rewrite cos_neg, sin_neg.
  pose proof (sin2_cos2 angle) as H. unfold Rsqr in H.
  f_equal.
  - replace ((x * cos angle - y * sin angle) * cos angle
             - (x * sin angle + y * cos angle) * - sin angle)
      with (x * (sin angle * sin angle + cos angle * cos angle)) by ring.
    rewrite H. ring.
  - replace ((x * cos angle - y * sin angle) * - sin angle
             + (x * sin angle + y * cos angle) * cos angle)
      with (y * (sin angle * sin angle + cos angle * cos angle)) by ring.
    rewrite H. ring.
Qed.

Lemma rotateBy_0 (x y : R) : rotateBy 0 x y = (x, y).
Proof. unfold rotateBy. rewrite cos_0, sin_0. f_equal; ring. Qed.

(** ** The handlers of the joystick *)

Lemma joystick_run_cons (ev : Joystick.Event) (evs : list Joystick.Event)
  (s : Joystick.JoystickController) :
  Joystick.run (ev :: evs) s =
  (fst (Joystick.run evs (fst (Joystick.dispatch ev s))),
   snd (Joystick.dispatch ev s)
   ++ snd (Joystick.run evs (fst (Joystick.dispatch ev s)))).
Proof.
  simpl. destruct (Joystick.dispatch ev s) as [s1 out1]. simpl.
  now destruct (Joystick.run evs s1).
Qed.

Lemma joystick_dispatch_release (ce : bool * Dom.PointerEvent)
  (s : Joystick.JoystickController) :
  Joystick.dispatch (joystick_release ce) s =
  (Joystick.set_isPressed false s, [Joystick.onReleaseCallback 0 0]).
Proof. destruct ce as [[|] e]; reflexivity. Qed.

Lemma joystick_move_pressed (e : Dom.PointerEvent)
  (s : Joystick.JoystickController) :
  Joystick.isPressed s = true ->
  Joystick.onJoysickMove e s =
  (s, [Joystick.onInputCallback (fst (Joystick.output s e))
                                (snd (Joystick.output s e))]).
Proof.
  intros Hp. unfold Joystick.onJoysickMove. rewrite Hp. cbn [negb].
  now destruct (Joystick.output s e).
Qed.

Lemma joystick_down_eq (dom : Joystick.Layout) (e : Dom.PointerEvent)
  (s : Joystick.JoystickController) :
  let s' := Joystick.updateContainerRectangle dom
              (Joystick.set_isPressed true s) in
  Joystick.onJoysickDown dom e s =
  (s', [Joystick.onInputCallback (fst (Joystick.output s' e))
                                 (snd (Joystick.output s' e))]).
Proof.
  intros s'. unfold Joystick.onJoysickDown. cbv zeta. fold s'.
  now apply joystick_move_pressed.
Qed.

Lemma round2_IZR_div (z : Z) (v : R) :
  v * 100 = IZR z -> Joystick.round2 v = IZR z / 100.
Proof.
  intros H. unfold Joystick.round2. now rewrite H, Math_round_IZR.
Qed.

Lemma round2_bound (v : R) :
  v - 1 / 200 <= Joystick.round2 v <= v + 1 / 200.
Proof.
  unfold Joystick.round2.
  pose proof (Math_round_bound (v * 100)) as [Hlo Hhi]. lra.
Qed.

Lemma clamp_within (maxd x y : R) :
  JS.Math_hypot x y <= maxd -> Joystick.clamp maxd x y = (x, y).
Proof.
  intros H. unfold Joystick.clamp. cbv zeta.
  now rewrite (proj2 (gt_false_iff _ _) H).
Qed.

Lemma clamp_outside (maxd x y : R) :
  JS.Math_hypot x y > maxd ->
  Joystick.clamp maxd x y =
  (x * (maxd / JS.Math_hypot x y), y * (maxd / JS.Math_hypot x y)).
Proof.
  intros H. unfold Joystick.clamp. cbv zeta.
  now rewrite (proj2 (gt_true_iff _ _) H).
Qed.

Lemma unrotate_0 (x y : R) : Joystick.unrotate 0 x y = (x, y).
Proof. unfold Joystick.unrotate. now rewrite truthy_0. Qed.

Lemma unrotate_scale (rot k x y : R) :
  Joystick.unrotate rot (x * k) (y * k) =
  (fst (Joystick.unrotate rot x y) * k, snd (Joystick.unrotate rot x y) * k).
Proof.
  unfold Joystick.unrotate. destruct (JS.truthy rot).
  - apply rotateBy_scale.
  - reflexivity.
Qed.

Lemma unrotate_norm (rot x y : R) :
  fst (Joystick.unrotate rot x y) * fst (Joystick.unrotate rot x y)
  + snd (Joystick.unrotate rot x y) * snd (Joystick.unrotate rot x y)
  = x * x + y * y.
Proof.
  unfold Joystick.unrotate. destruct (JS.truthy rot).
  - apply rotateBy_norm.
  - reflexivity.
Qed.



(** The output for an offset within the travel, without rotation. *)
Lemma output_within (s : Joystick.JoystickController) (e : Dom.PointerEvent) :
  Joystick.rotation s = 0 ->
  JS.Math_hypot (Dom.clientX e - centerX (Joystick.baseRect s))
                (Dom.clientY e - centerY (Joystick.baseRect s))
    <= Joystick.thumbMaxDistance s ->
  Joystick.output s e =
  (Joystick.round2 ((Dom.clientX e - centerX (Joystick.baseRect s))
                    / Joystick.thumbMaxDistance s),
   Joystick.round2 (- (Dom.clientY e - centerY (Joystick.baseRect s))
                    / Joystick.thumbMaxDistance s)).
Proof.
  intros Hrot Hd. unfold Joystick.output, Joystick.mapOffset. cbv zeta.
  rewrite (clamp_within _ _ _ Hd), Hrot, unrotate_0. reflexivity.
Qed.


(** A unit vector rounded to two decimal places has a length between
    0.99 and 1.01. *)
Lemma rounded_unit_magnitude (ux uy a b : R) :
  ux * ux + uy * uy = 1 ->
  ux - 1 / 200 <= a <= ux + 1 / 200 ->
  uy - 1 / 200 <= b <= uy + 1 / 200 ->
  0.99 <= JS.Math_hypot a b <= 1.01.
Proof.
  intros Hu Ha Hb.
  set (e1 := a - ux). set (e2 := b - uy).
  assert (Hb1 : - (1 / 200) <= e1 <= 1 / 200) by (unfold e1; lra).
  assert (Hb2 : - (1 / 200) <= e2 <= 1 / 200) by (unfold e2; lra).
  assert (He1 : e1 * e1 <= 1 / 40000) by nra.
  assert (He2 : e2 * e2 <= 1 / 40000) by nra.
  set (t := ux * e1 + uy * e2).
  assert (Hcs : t * t <= e1 * e1 + e2 * e2).
  { assert (Hid : (ux * ux + uy * uy) * (e1 * e1 + e2 * e2) - t * t
                  = (ux * e2 - uy * e1) * (ux * e2 - uy * e1))
      by (unfold t; ring).
    rewrite Hu in Hid.
    pose proof (Rle_0_sqr (ux * e2 - uy * e1)) as Hsq. unfold Rsqr in Hsq.
    lra. }
  assert (Ht : - (3 / 400) <= t <= 3 / 400) by nra.
  assert (Hab : a * a + b * b = 1 + 2 * t + e1 * e1 + e2 * e2).
  { unfold t, e1, e2. rewrite <- Hu. ring. }
  apply Math_hypot_bounds; try lra.
  rewrite Hab. split; nra.
Qed.

(** ** The handlers of the dpad *)

Lemma direction_ne_true_iff (a b : Dpad.direction) :
  Dpad.direction_ne a b = true <-> a <> b.
Proof.
  unfold Dpad.direction_ne.
  destruct (Dpad.direction_eq_dec a b); split; congruence || tauto.
Qed.

Lemma direction_ne_refl (a : Dpad.direction) : Dpad.direction_ne a a = false.
Proof.
  unfold Dpad.direction_ne.
  destruct (Dpad.direction_eq_dec a a); congruence.
Qed.

Lemma dpad_move_pressed (rect : Dom.DOMRect) (e : Dom.PointerEvent)
  (s : Dpad.DpadController) :
  Dpad.isPressed s = true ->
  Dpad.baseRect s = Some rect ->
  Dpad.onDpadMove e s =
  Some (if Dpad.direction_ne (Dpad.currentDirection s)
                             (Dpad.directionOf s rect e)
        then (Dpad.set_currentDirection (Dpad.directionOf s rect e) s,
              [Dpad.onPressCallback (Dpad.directionOf s rect e)])
        else (s, [])).
Proof.
  intros Hp Hr. unfold Dpad.onDpadMove. rewrite Hp, Hr. cbn.
  now destruct (Dpad.direction_ne _ _).
Qed.

Lemma dpad_move_idle (e : Dom.PointerEvent) (s : Dpad.DpadController) :
  Dpad.isPressed s = false -> Dpad.onDpadMove e s = Some (s, []).
Proof. intros Hp. unfold Dpad.onDpadMove. now rewrite Hp. Qed.

Lemma dpad_move_direction (rect : Dom.DOMRect) (e : Dom.PointerEvent)
  (s : Dpad.DpadController) :
  Dpad.isPressed s = true ->
  Dpad.baseRect s = Some rect ->
  exists out,
    Dpad.onDpadMove e s =
    Some (Dpad.set_currentDirection (Dpad.directionOf s rect e) s, out).
Proof.
  intros Hp Hr. rewrite (dpad_move_pressed rect e s Hp Hr).
  destruct (Dpad.direction_ne _ _) eqn:Hne.
  - now eexists.
  - exists []. do 2 f_equal.
    unfold Dpad.direction_ne in Hne.
    destruct (Dpad.direction_eq_dec _ _) as [Heq|]; [|discriminate].
    rewrite <- Heq. now destruct s.
Qed.

Lemma directionOf_set_currentDirection (d : Dpad.direction)
  (s : Dpad.DpadController) (rect : Dom.DOMRect) (e : Dom.PointerEvent) :
  Dpad.directionOf (Dpad.set_currentDirection d s) rect e =
  Dpad.directionOf s rect e.
Proof. reflexivity. Qed.

(** Moves that all map to the current direction invoke nothing. *)
Lemma dpad_moves_same_direction (rect : Dom.DOMRect)
  (es : list Dom.PointerEvent) (s : Dpad.DpadController) :
  Dpad.isPressed s = true ->
  Dpad.baseRect s = Some rect ->
  Forall (fun e => Dpad.directionOf s rect e = Dpad.currentDirection s) es ->
  Dpad.moves es s = (s, []).
Proof.
  intros Hp Hr Hall. induction Hall as [|e es He _ IH]; [reflexivity|].
  cbn [Dpad.moves]. rewrite (dpad_move_pressed rect e s Hp Hr).
  rewrite He, direction_ne_refl. now rewrite IH.
Qed.

Lemma centerDistanceOf_eq (x y d : R) :
  0 <= d -> x * x + y * y = d * d -> Dpad.centerDistanceOf x y = d.
Proof. apply Math_hypot_eq. Qed.

Lemma angleOf_range (x y : R) : -180 < Dpad.angleOf x y <= 180.
Proof.
  pose proof PI_RGT_0 as Hpi.
  pose proof (Math_atan2_range (- y) x) as [Hlo Hhi].
  unfold Dpad.angleOf. set (a := JS.Math_atan2 (- y) x) in *.
  split.
  - apply (Rmult_lt_reg_r PI); [exact Hpi|].
    replace (a * 180 / PI * PI) with (a * 180) by (field; lra). lra.
  - apply (Rmult_le_reg_r PI); [exact Hpi|].
    replace (a * 180 / PI * PI) with (a * 180) by (field; lra). lra.
Qed.

Lemma classify_dead_zone (a cd rd : R) :
  cd <= rd -> Dpad.classify a cd rd = Dpad.center.
Proof.
  intros H. unfold Dpad.classify. now rewrite (proj2 (gt_false_iff _ _) H).
Qed.

(** Outside the dead zone the chain of comparisons lands in the sector of
    the table that holds the angle. *)
Lemma classify_in_sector (a cd rd : R) :
  cd > rd -> -180 < a <= 180 -> in_sector a (Dpad.classify a cd rd).
Proof.
  intros Hcd [Hlo Hhi]. unfold Dpad.classify.
  rewrite (proj2 (gt_true_iff _ _) Hcd).
  destruct (Rle_lt_dec a (-157.5));
    [js_compare; cbn; constructor; lra|].
  destruct (Rle_lt_dec a (-112.5));
    [js_compare; cbn; constructor; lra|].
  destruct (Rle_lt_dec a (-67.5));
    [js_compare; cbn; constructor; lra|].
  destruct (Rle_lt_dec a (-22.5));
    [js_compare; cbn; constructor; lra|].
  destruct (Rle_lt_dec a 22.5);
    [js_compare; cbn; constructor; lra|].
  destruct (Rle_lt_dec a 67.5);
    [js_compare; cbn; constructor; lra|].
  destruct (Rle_lt_dec a 112.5);
    [js_compare; cbn; constructor; lra|].
  destruct (Rle_lt_dec a 157.5);
    js_compare; cbn; constructor; lra.
Qed.

(** The sectors of the table do not overlap. *)
Lemma in_sector_unique (a : R) (d1 d2 : Dpad.direction) :
  in_sector a d1 -> in_sector a d2 -> d1 = d2.
Proof.
  intros H1 H2. destruct H1, H2; try reflexivity; exfalso; lra.
Qed.

(** A dpad made with the default options, and
    pressed by pointer 1 at the center of a rectangle of 100 by 100. *)
Lemma dpad_pressed_at_center :
  Dpad.onDpadDown (Dom.mkRect 0 0 100 100)
    (Dpad.PointerEvent (Dom.mkPointer 1 50 50))
    (Dpad.new (Dpad.mkOptions None None)) =
  Some (Dpad.mkDpad 0.25 0 Dpad.center 1
          (Some (Dom.mkRect 0 0 100 100)) (JS.Math_min 100 100 / 2 * 0.25)
          true,
        []).
Proof.
  unfold Dpad.onDpadDown.
  rewrite (dpad_move_pressed (Dom.mkRect 0 0 100 100));
    [|reflexivity|reflexivity].
  assert (Hd : forall s, Dpad.rotation s = 0 -> 0 <= Dpad.inputRegisterDistance s ->
               Dpad.directionOf s (Dom.mkRect 0 0 100 100)
                 (Dom.mkPointer 1 50 50) = Dpad.center).
  { intros s Hrot Hreg. unfold Dpad.directionOf, Dpad.offset. cbv zeta.
    rewrite Hrot, strict_ne_refl. unfold Dpad.classify, centerX, centerY.
    cbn. rewrite (centerDistanceOf_eq _ _ 0) by lra.
    now rewrite (proj2 (gt_false_iff _ _) Hreg). }
  rewrite Hd; [reflexivity|reflexivity|].
  cbn. unfold JS.Math_min, Rmin. destruct (Rle_dec 100 100); lra.
Qed.

(** ** The handlers of the slider *)

Lemma slider_move_pressed (rect : Dom.DOMRect) (e : Dom.PointerEvent)
  (s : Slider.RetrackableSlider) :
  Slider.isPressed s = true ->
  snd (Slider.onSliderMove rect e s) =
  (if Slider.valuePercent s !== Slider.valueOf (Slider.direction s) rect e
   then [Slider.onSlideCallback (Slider.valueOf (Slider.direction s) rect e)]
   else []).
Proof.
  intros Hp. unfold Slider.onSliderMove, Slider.setSliderValue.
  rewrite Hp. cbn.
  now destruct (Slider.valuePercent s
                !== Slider.valueOf (Slider.direction s) rect e).
Qed.

(** ** Events of another pointer *)

(** C1, as the code has it.  The dpad ignores a move event when it is not
    pressed.  While it is pressed, no move event is filtered by its
    pointer: with any [pointerId], equal to the stored one or not, the
    direction is computed from the coordinates, and when it differs from
    [currentDirection] it is stored and the press callback is invoked.
    The joystick and the slider, which store no pointer, handle a move
    event the same way whatever its [pointerId]. *)
Theorem move_any_pointer :
  (forall (rect : Dom.DOMRect) (id : Z) (x y : R) (s : Dpad.DpadController),
     Dpad.isPressed s = true ->
     Dpad.baseRect s = Some rect ->
     let e := Dom.mkPointer id x y in
     let d := Dpad.directionOf s rect e in
     Dpad.onDpadMove e s =
       Dpad.onDpadMove (Dom.mkPointer (Dpad.pointerId s) x y) s
     /\ Dpad.onDpadMove e s =
        Some (if Dpad.direction_ne (Dpad.currentDirection s) d
              then (Dpad.set_currentDirection d s, [Dpad.onPressCallback d])
              else (s, [])))
  /\ (forall (e : Dom.PointerEvent) (s : Dpad.DpadController),
        Dpad.isPressed s = false -> Dpad.onDpadMove e s = Some (s, []))
  /\ (forall (id id' : Z) (x y : R) (s : Joystick.JoystickController),
        Joystick.onJoysickMove (Dom.mkPointer id x y) s =
        Joystick.onJoysickMove (Dom.mkPointer id' x y) s)
  /\ (forall (rect : Dom.DOMRect) (id id' : Z) (x y : R)
             (s : Slider.RetrackableSlider),
        Slider.onSliderMove rect (Dom.mkPointer id x y) s =
        Slider.onSliderMove rect (Dom.mkPointer id' x y) s).
Proof.
  split; [|split; [|split]].
  - intros rect id x y s Hp Hr e d. split.
    + reflexivity.
    + now apply dpad_move_pressed.
  - apply dpad_move_idle.
  - reflexivity.
  - intros rect id id' x y [[|] br p v]; reflexivity.
Qed.

(** The dpad of the example, tracking pointer 1, handles a move of
    pointer 2 as it handles one of pointer 1. *)
Lemma move_any_pointer_witness :
  let rect := Dom.mkRect 0 0 100 100 in
  let s1 := Dpad.mkDpad 0.25 0 Dpad.center 1 (Some rect)
              (JS.Math_min 100 100 / 2 * 0.25) true in
  let e := Dom.mkPointer 2 90 50 in
  let d := Dpad.directionOf s1 rect e in
  (Dpad.isPressed s1 = true /\ Dpad.baseRect s1 = Some rect)
  /\ Dpad.onDpadMove e s1 = Dpad.onDpadMove (Dom.mkPointer 1 90 50) s1
  /\ Dpad.onDpadMove e s1 =
     Some (if Dpad.direction_ne (Dpad.currentDirection s1) d
           then (Dpad.set_currentDirection d s1, [Dpad.onPressCallback d])
           else (s1, [])).
Proof.
  intros rect s1 e d. split; [split; reflexivity|].
  apply (proj1 move_any_pointer rect 2%Z 90 50 s1); reflexivity.
Defined.

(** C1 fails for the dpad: while it tracks pointer 1 with direction
    [center], a move event of pointer 2, 40 to the right of the center,
    sets the direction to [right] and invokes the press callback. *)
Lemma dpad_foreign_move_not_ignored :
  let rect := Dom.mkRect 0 0 100 100 in
  let s1 := Dpad.mkDpad 0.25 0 Dpad.center 1 (Some rect)
              (JS.Math_min 100 100 / 2 * 0.25) true in
  Dpad.onDpadDown rect (Dpad.PointerEvent (Dom.mkPointer 1 50 50))
    (Dpad.new (Dpad.mkOptions None None)) = Some (s1, [])
  /\ Dpad.pointerId s1 = 1%Z
  /\ Dpad.onDpadMove (Dom.mkPointer 2 90 50) s1 =
     Some (Dpad.set_currentDirection Dpad.right s1,
           [Dpad.onPressCallback Dpad.right])
  /\ Dpad.onDpadMove (Dom.mkPointer 2 90 50) s1 <> Some (s1, []).
Proof.
  intros rect s1.
  assert (Hmove : Dpad.onDpadMove (Dom.mkPointer 2 90 50) s1 =
                  Some (Dpad.set_currentDirection Dpad.right s1,
                        [Dpad.onPressCallback Dpad.right])).
  { rewrite (dpad_move_pressed rect); [|reflexivity|reflexivity].
    assert (Hd : Dpad.directionOf s1 rect (Dom.mkPointer 2 90 50)
                 = Dpad.right).
    { unfold Dpad.directionOf, Dpad.offset. cbv zeta. cbn.
      rewrite strict_ne_refl. unfold centerX, centerY, Dpad.angleOf. cbn.
      rewrite Math_atan2_on_positive_x_axis by lra.
      rewrite (centerDistanceOf_eq _ _ 40) by lra.
      replace (0 * 180 / PI) with 0 by (field; apply PI_neq0).
      unfold Dpad.classify, JS.Math_min, Rmin.
      destruct (Rle_dec 100 100); [|lra]. now js_compare. }
    rewrite Hd. reflexivity. }
  split; [apply dpad_pressed_at_center|]. split; [reflexivity|].
  split; [exact Hmove|]. rewrite Hmove. intros H. discriminate H.
Qed.

(** ** Slider: release *)

(** C2, as the code has it.  A release of the slider leaves it not pressed
    with [valuePercent] 0, and invokes the release callback when
    [valuePercent] was not 0 before, and only then. *)
Theorem slider_release_gated :
  forall (e : Dom.PointerEvent) (s : Slider.RetrackableSlider),
    Slider.isPressed (fst (Slider.onSliderUp e s)) = false
    /\ Slider.valuePercent (fst (Slider.onSliderUp e s)) = 0
    /\ snd (Slider.onSliderUp e s) =
       (if Slider.valuePercent s !== 0 then [Slider.onReleaseCallback]
        else []).
Proof.
  intros e s. unfold Slider.onSliderUp. cbv zeta.
  cbn [Slider.set_isPressed Slider.valuePercent].
  destruct (Slider.valuePercent s !== 0) eqn:Hv; cbn.
  - repeat split.
  - apply strict_ne_false_iff in Hv. repeat split. exact Hv.
Qed.

(** C2 fails when the value is already 0: released at 30 percent and then
    released once more, the slider invokes the release callback the first
    time and not the second. *)
Lemma slider_second_release_silent :
  let e := Dom.mkPointer 1 5 70 in
  let s := Slider.mkSlider Slider.vertical
             (Some (Dom.mkRect 0 0 10 100)) true 30 in
  snd (Slider.onSliderUp e s) = [Slider.onReleaseCallback]
  /\ Slider.valuePercent (fst (Slider.onSliderUp e s)) = 0
  /\ snd (Slider.onSliderUp e (fst (Slider.onSliderUp e s))) = [].
Proof.
  intros e s. unfold Slider.onSliderUp, s. cbn. js_compare. cbn.
  js_compare. repeat split.
Qed.

(** ** A press while pressed *)

(** C3, as the code has it.  Only the button ignores a press while it is
    pressed: its fields stay and no callback is invoked.  The joystick's
    pointer-down handler has no guard: pressed or not, it measures the
    rectangle and the travel again, runs the move mapping on the event
    and invokes the input callback.  The dpad and the slider have no guard
    either: a dpad that tracks a pointer and a slider that is pressed
    handle a press as they do when idle, the dpad storing the new
    pointer. *)
Theorem press_while_pressed :
  Button.onButtonDown (Button.mkButton true) = (Button.mkButton true, [])
  /\ (forall (dom : Joystick.Layout) (e : Dom.PointerEvent)
             (s : Joystick.JoystickController),
        let s' := Joystick.updateContainerRectangle dom
                    (Joystick.set_isPressed true s) in
        Joystick.onJoysickDown dom e (Joystick.set_isPressed true s) =
          Joystick.onJoysickDown dom e (Joystick.set_isPressed false s)
        /\ Joystick.onJoysickDown dom e (Joystick.set_isPressed true s) =
           (s', [Joystick.onInputCallback (fst (Joystick.output s' e))
                                          (snd (Joystick.output s' e))]))
  /\ (forall (rect : Dom.DOMRect) (e : Dom.PointerEvent)
             (threshold rot reg : R) (cur : Dpad.direction) (id : Z)
             (old : option Dom.DOMRect),
        Dpad.onDpadDown rect (Dpad.PointerEvent e)
          (Dpad.mkDpad threshold rot cur id old reg true) =
        Dpad.onDpadDown rect (Dpad.PointerEvent e)
          (Dpad.mkDpad threshold rot cur (-1) None 0 false)
        /\ exists (s' : Dpad.DpadController) (out : list Dpad.Callback),
             Dpad.onDpadDown rect (Dpad.PointerEvent e)
               (Dpad.mkDpad threshold rot cur id old reg true)
             = Some (s', out)
             /\ Dpad.pointerId s' = Dom.pointerId e
             /\ Dpad.baseRect s' = Some rect)
  /\ (forall (rect : Dom.DOMRect) (e : Dom.PointerEvent)
             (d : Slider.SliderOrientation) (old : option Dom.DOMRect)
             (v : R),
        Slider.onSliderDown rect e (Slider.mkSlider d old true v) =
        Slider.onSliderDown rect e (Slider.mkSlider d None false v)).
Proof.
  split; [reflexivity|]. split; [|split].
  - intros dom e s s'. split; [reflexivity|].
    apply (joystick_down_eq dom e (Joystick.set_isPressed true s)).
  - intros rect e threshold rot reg cur id old. split; [reflexivity|].
    unfold Dpad.onDpadDown.
    set (s1 := Dpad.acquire _ _ _).
    destruct (dpad_move_direction rect e s1) as [out Hout];
      [reflexivity|reflexivity|].
    eexists. exists out. split; [exact Hout|]. split; reflexivity.
  - reflexivity.
Qed.

(** C3 fails for the joystick: while a first pointer is tracked on a
    joystick with a travel of 50, a second pointer going down above the
    center, after the base has moved by 10, replaces the rectangle and
    invokes the input callback with (0, 1). *)
Lemma joystick_second_press_not_ignored :
  let dom := Joystick.mkLayout (Dom.mkRect 0 0 125 125) 50 in
  let dom' := Joystick.mkLayout (Dom.mkRect 10 0 125 125) 50 in
  let s0 := Joystick.new (Joystick.mkOptions None (Some 125)) dom in
  let s1 :=
    fst (Joystick.onJoysickDown dom (Dom.mkPointer 1 (125 / 2) (125 / 2)) s0) in
  let r :=
    Joystick.onJoysickDown dom'
      (Dom.mkPointer 2 (10 + 125 / 2) (125 / 2 - 50)) s1 in
  Joystick.isPressed s1 = true
  /\ snd r = [Joystick.onInputCallback 0 1]
  /\ Joystick.baseRect (fst r) <> Joystick.baseRect s1
  /\ r <> (s1, []).
Proof.
  intros dom dom' s0 s1 r.
  assert (Hs1 : s1 = Joystick.updateContainerRectangle dom
                       (Joystick.set_isPressed true s0)).
  { unfold s1. now rewrite joystick_down_eq. }
  assert (Hrad : Joystick.radius s1 = 125).
  { rewrite Hs1. cbn. unfold JS.truthy. now js_compare. }
  assert (Hr : snd r = [Joystick.onInputCallback 0 1]).
  { unfold r. rewrite joystick_down_eq. cbn [snd].
    rewrite output_within.
    - cbn. rewrite Hrad. unfold centerX, centerY. cbn.
      replace ((125 - 50) / 1.5) with 50 by lra.
      rewrite (round2_IZR_div 0), (round2_IZR_div 100) by lra.
      do 2 f_equal; lra.
    - rewrite Hs1. reflexivity.
    - cbn. rewrite Hrad. unfold centerX, centerY. cbn.
      rewrite (Math_hypot_eq _ _ 50); lra. }
  split; [now rewrite Hs1|]. split; [exact Hr|]. split.
  - unfold r. rewrite joystick_down_eq, Hs1. cbn.
    intros H. injection H as H. lra.
  - intros H. rewrite H in Hr. discriminate Hr.
Qed.

(** ** Dpad: the sector table *)

Lemma classify_left (a cd rd : R) :
  cd > rd -> a <= -157.5 \/ 157.5 < a ->
  Dpad.classify a cd rd = Dpad.left.
Proof.
  intros Hcd Ha. unfold Dpad.classify.
  rewrite (proj2 (gt_true_iff _ _) Hcd).
  destruct Ha as [Ha|Ha]; now js_compare.
Qed.

Lemma fp_dpad_move_pressed (A : Fp.Arith) (rect : Dom.DOMRect)
  (e : Dom.PointerEvent) (s : Dpad.DpadController) :
  Dpad.isPressed s = true ->
  Dpad.baseRect s = Some rect ->
  let d := Fp.dpadDirectionOf A s rect e in
  Fp.onDpadMove A e s =
  Some (Dpad.set_currentDirection d s,
        if Dpad.direction_ne (Dpad.currentDirection s) d
        then [Dpad.onPressCallback d] else []).
Proof.
  intros Hp Hr d. unfold Fp.onDpadMove. rewrite Hp, Hr. cbn [negb].
  fold d. destruct (Dpad.direction_ne (Dpad.currentDirection s) d) eqn:Hne.
  - reflexivity.
  - unfold Dpad.direction_ne in Hne.
    destruct (Dpad.direction_eq_dec (Dpad.currentDirection s) d) as [Heq|];
      [|discriminate].
    rewrite <- Heq. now destruct s.
Qed.

(** Without rounding the handler is the one of the definitions above. *)
Lemma fp_dpad_move_exact (e : Dom.PointerEvent) (s : Dpad.DpadController) :
  Fp.onDpadMove Fp.exact e s = Dpad.onDpadMove e s.
Proof. reflexivity. Qed.

(** C4. On a move event while the dpad is pressed, in the arithmetic of
    the doubles: with [(x0, y0)] the offset of the pointer from the
    center of the rectangle, [(dx, dy)] that offset rotated by minus the
    rotation when the rotation is not 0, [angle] the [atan2] of
    [(-dy, dx)] in degrees and [centerDistance] the root of
    [dx * dx + dy * dy], all as the handler computes them: the direction
    the dpad takes is [center] when [centerDistance] is at most the
    register distance, and otherwise the one the sector table gives for
    [angle]; an angle of -180, which [atan2] gives for a pointer straight
    to the left, is [left] as well.  At 22.5 degrees the direction is
    [right], at 22.6 [up_right].  The press callback is invoked with the
    direction when it is not the current one. *)
Theorem dpad_sector_table :
  forall (A : Fp.Arith) (rect : Dom.DOMRect) (e : Dom.PointerEvent)
         (s : Dpad.DpadController),
    Dpad.isPressed s = true ->
    Dpad.baseRect s = Some rect ->
    let centerX := Fp.add A (Dom.left rect) (Fp.div A (Dom.width rect) 2) in
    let centerY := Fp.add A (Dom.top rect) (Fp.div A (Dom.height rect) 2) in
    let x0 := Fp.sub A (Dom.clientX e) centerX in
    let y0 := Fp.sub A (Dom.clientY e) centerY in
    let theta := Fp.div A (Fp.mul A (- Dpad.rotation s) (Fp.PI A)) 180 in
    let dx :=
      if Dpad.rotation s !== 0
      then Fp.sub A (Fp.mul A x0 (Fp.cos A theta))
                    (Fp.mul A y0 (Fp.sin A theta))
      else x0 in
    let dy :=
      if Dpad.rotation s !== 0
      then Fp.add A (Fp.mul A x0 (Fp.sin A theta))
                    (Fp.mul A y0 (Fp.cos A theta))
      else y0 in
    let angle :=
      Fp.div A (Fp.mul A (Fp.atan2 A (- dy) dx) 180) (Fp.PI A) in
    let centerDistance :=
      Fp.sqrt A (Fp.add A (Fp.mul A dx dx) (Fp.mul A dy dy)) in
    let registerDistance := Dpad.inputRegisterDistance s in
    exists d : Dpad.direction,
      Fp.onDpadMove A e s =
        Some (Dpad.set_currentDirection d s,
              if Dpad.direction_ne (Dpad.currentDirection s) d
              then [Dpad.onPressCallback d] else [])
      /\ (centerDistance <= registerDistance -> d = Dpad.center)
      /\ (centerDistance > registerDistance -> -180 < angle <= 180 ->
          in_sector angle d)
      /\ (centerDistance > registerDistance ->
          angle <= -157.5 \/ 157.5 < angle -> d = Dpad.left)
      /\ (centerDistance > registerDistance -> angle = 22.5 ->
          d = Dpad.right)
      /\ (centerDistance > registerDistance -> angle = 22.6 ->
          d = Dpad.up_right).
Proof.
  intros A rect e s Hp Hr centerX centerY x0 y0 theta dx dy angle
         centerDistance registerDistance.
  exists (Fp.dpadDirectionOf A s rect e).
  split; [now apply fp_dpad_move_pressed|].
  assert (Hd : Fp.dpadDirectionOf A s rect e =
               Dpad.classify angle centerDistance registerDistance).
  { unfold Fp.dpadDirectionOf, Fp.dpadOffset. cbv zeta.
    fold centerX centerY. fold x0 y0. fold theta.
    unfold angle, centerDistance, dx, dy.
    now destruct (Dpad.rotation s !== 0). }
  rewrite Hd.
  assert (Hsec : centerDistance > registerDistance ->
                 -180 < angle <= 180 ->
                 in_sector angle
                   (Dpad.classify angle centerDistance registerDistance)).
  { intros Hcd Hrange. now apply classify_in_sector. }
  split; [apply classify_dead_zone|]. split; [exact Hsec|].
  split; [apply classify_left|]. split.
  - intros Hcd Ha. apply (in_sector_unique angle); [apply Hsec; lra|].
    constructor. lra.
  - intros Hcd Ha. apply (in_sector_unique angle); [apply Hsec; lra|].
    constructor. lra.
Qed.

(** The dpad of the example, pressed, with a move 40 to the right of the
    center, in the arithmetic without rounding. *)
Lemma dpad_sector_table_witness :
  let A := Fp.exact in
  let rect := Dom.mkRect 0 0 100 100 in
  let s := Dpad.mkDpad 0.25 0 Dpad.center 1 (Some rect) 12.5 true in
  let e := Dom.mkPointer 1 90 50 in
  let centerX := Fp.add A (Dom.left rect) (Fp.div A (Dom.width rect) 2) in
  let centerY := Fp.add A (Dom.top rect) (Fp.div A (Dom.height rect) 2) in
  let x0 := Fp.sub A (Dom.clientX e) centerX in
  let y0 := Fp.sub A (Dom.clientY e) centerY in
  let theta := Fp.div A (Fp.mul A (- Dpad.rotation s) (Fp.PI A)) 180 in
  let dx :=
    if Dpad.rotation s !== 0
    then Fp.sub A (Fp.mul A x0 (Fp.cos A theta))
                  (Fp.mul A y0 (Fp.sin A theta))
    else x0 in
  let dy :=
    if Dpad.rotation s !== 0
    then Fp.add A (Fp.mul A x0 (Fp.sin A theta))
                  (Fp.mul A y0 (Fp.cos A theta))
    else y0 in
  let angle :=
    Fp.div A (Fp.mul A (Fp.atan2 A (- dy) dx) 180) (Fp.PI A) in
  let centerDistance :=
    Fp.sqrt A (Fp.add A (Fp.mul A dx dx) (Fp.mul A dy dy)) in
  let registerDistance := Dpad.inputRegisterDistance s in
  (Dpad.isPressed s = true /\ Dpad.baseRect s = Some rect)
  /\ exists d : Dpad.direction,
       Fp.onDpadMove A e s =
         Some (Dpad.set_currentDirection d s,
               if Dpad.direction_ne (Dpad.currentDirection s) d
               then [Dpad.onPressCallback d] else [])
       /\ (centerDistance <= registerDistance -> d = Dpad.center)
       /\ (centerDistance > registerDistance -> -180 < angle <= 180 ->
           in_sector angle d)
       /\ (centerDistance > registerDistance ->
           angle <= -157.5 \/ 157.5 < angle -> d = Dpad.left)
       /\ (centerDistance > registerDistance -> angle = 22.5 ->
           d = Dpad.right)
       /\ (centerDistance > registerDistance -> angle = 22.6 ->
           d = Dpad.up_right).
Proof.
  intros A rect s e. split; [split; reflexivity|].
  apply (dpad_sector_table A rect e s); reflexivity.
Defined.

(** ** Joystick: the clamp *)

(** C5. On a move event while the joystick is pressed, with [(dx, dy)] the
    offset from the center and [h] its length: when [h] is more than the
    travel [maxd], the offset is scaled by the positive factor [maxd / h]
    to the length [maxd], and the pair emitted is the unit vector of the
    offset (rotated back, and with the vertical axis upwards) rounded to
    two decimal places, so its length is between 0.99 and 1.01; when [h]
    is at most [maxd] the offset is left as it is. *)
Theorem joystick_clamp :
  forall (e : Dom.PointerEvent) (s : Joystick.JoystickController),
    Joystick.isPressed s = true ->
    let maxd := Joystick.thumbMaxDistance s in
    0 < maxd ->
    let dx := Dom.clientX e - centerX (Joystick.baseRect s) in
    let dy := Dom.clientY e - centerY (Joystick.baseRect s) in
    let h := JS.Math_hypot dx dy in
    let out := Joystick.output s e in
    Joystick.onJoysickMove e s =
      (s, [Joystick.onInputCallback (fst out) (snd out)])
    /\ (h <= maxd -> Joystick.clamp maxd dx dy = (dx, dy))
    /\ (h > maxd ->
        let k := maxd / h in
        let rx := fst (Joystick.unrotate (Joystick.rotation s) dx dy) in
        let ry := snd (Joystick.unrotate (Joystick.rotation s) dx dy) in
        0 < k
        /\ Joystick.clamp maxd dx dy = (dx * k, dy * k)
        /\ JS.Math_hypot (dx * k) (dy * k) = maxd
        /\ out = (Joystick.round2 (rx / h), Joystick.round2 (- ry / h))
        /\ (rx / h) * (rx / h) + (- ry / h) * (- ry / h) = 1
        /\ 0.99 <= JS.Math_hypot (fst out) (snd out) <= 1.01).
Proof.
  intros e s Hp maxd Hmaxd dx dy h out.
  split; [now apply joystick_move_pressed|].
  split; [apply clamp_within|].
  intros Hh k rx ry.
  assert (Hh0 : 0 < h) by lra.
  assert (Hk : 0 < k) by (unfold k; now apply Rdiv_lt_0_compat).
  assert (Hclamp : Joystick.clamp maxd dx dy = (dx * k, dy * k))
    by now apply clamp_outside.
  assert (Hout : out =
                 (Joystick.round2 (rx / h), Joystick.round2 (- ry / h))).
  { unfold out, Joystick.output, Joystick.mapOffset. cbv zeta.
    fold dx dy maxd. rewrite Hclamp, unrotate_scale. fold rx ry.
    f_equal; f_equal; unfold k; field; lra. }
  assert (Hunit : (rx / h) * (rx / h) + (- ry / h) * (- ry / h) = 1).
  { pose proof (unrotate_norm (Joystick.rotation s) dx dy) as Hn.
    fold rx ry in Hn. pose proof (Math_hypot_sqr dx dy) as Hs.
    fold h in Hs. rewrite <- Hs in Hn.
    replace (rx / h * (rx / h) + - ry / h * (- ry / h))
      with ((rx * rx + ry * ry) / (h * h)) by (field; lra).
    rewrite Hn. field. lra. }
  split; [exact Hk|]. split; [exact Hclamp|]. split.
  { rewrite Math_hypot_scale by lra. fold h. unfold k. field. lra. }
  split; [exact Hout|]. split; [exact Hunit|].
  rewrite Hout. cbn [fst snd].
  apply (rounded_unit_magnitude (rx / h) (- ry / h));
    [exact Hunit|apply round2_bound|apply round2_bound].
Qed.

(** A pressed joystick with a travel of 50 and a pointer 100 to the right
    of the center. *)
Lemma joystick_clamp_witness :
  let s := Joystick.mkJoystick 0 125 true (Dom.mkRect 0 0 125 125) 50 in
  let e := Dom.mkPointer 1 (125 / 2 + 100) (125 / 2) in
  let maxd := Joystick.thumbMaxDistance s in
  let dx := Dom.clientX e - centerX (Joystick.baseRect s) in
  let dy := Dom.clientY e - centerY (Joystick.baseRect s) in
  let h := JS.Math_hypot dx dy in
  let out := Joystick.output s e in
  (Joystick.isPressed s = true /\ 0 < maxd)
  /\ Joystick.onJoysickMove e s =
       (s, [Joystick.onInputCallback (fst out) (snd out)])
  /\ (h <= maxd -> Joystick.clamp maxd dx dy = (dx, dy))
  /\ (h > maxd ->
      let k := maxd / h in
      let rx := fst (Joystick.unrotate (Joystick.rotation s) dx dy) in
      let ry := snd (Joystick.unrotate (Joystick.rotation s) dx dy) in
      0 < k
      /\ Joystick.clamp maxd dx dy = (dx * k, dy * k)
      /\ JS.Math_hypot (dx * k) (dy * k) = maxd
      /\ out = (Joystick.round2 (rx / h), Joystick.round2 (- ry / h))
      /\ (rx / h) * (rx / h) + (- ry / h) * (- ry / h) = 1
      /\ 0.99 <= JS.Math_hypot (fst out) (snd out) <= 1.01).
Proof.
  intros s e maxd dx dy h out.
  assert (Hmaxd : 0 < maxd) by (unfold maxd; cbn; lra).
  split; [split; [reflexivity|exact Hmaxd]|].
  apply (joystick_clamp e s); [reflexivity|exact Hmaxd].
Defined.

(** ** Dpad: the press callback and repeated moves *)

(** C6. While the dpad is pressed, move events that all map to one
    direction [d] invoke the press callback once, at the first of them,
    when [d] is not the current direction, and not at all when it is; the
    direction is [d] afterwards, and more such moves invoke nothing. *)
Theorem dpad_press_fires_on_transition :
  forall (rect : Dom.DOMRect) (d : Dpad.direction)
         (e : Dom.PointerEvent) (es es' : list Dom.PointerEvent)
         (s : Dpad.DpadController),
    Dpad.isPressed s = true ->
    Dpad.baseRect s = Some rect ->
    Forall (fun e => Dpad.directionOf s rect e = d) (e :: es ++ es') ->
    snd (Dpad.moves (e :: es) s) =
      (if Dpad.direction_ne (Dpad.currentDirection s) d
       then [Dpad.onPressCallback d] else [])
    /\ Dpad.currentDirection (fst (Dpad.moves (e :: es) s)) = d
    /\ snd (Dpad.moves es' (fst (Dpad.moves (e :: es) s))) = [].
Proof.
  intros rect d e es es' s Hp Hr Hall.
  apply Forall_cons_iff in Hall as [He Hall].
  apply Forall_app in Hall as [Hes Hes'].
  set (s1 := Dpad.set_currentDirection d s).
  assert (Hstay : forall l, Forall (fun e => Dpad.directionOf s rect e = d) l ->
                            Dpad.moves l s1 = (s1, [])).
  { intros l Hl. apply (dpad_moves_same_direction rect).
    - exact Hp.
    - exact Hr.
    - exact Hl. }
  assert (Hs1 : Dpad.currentDirection s = d -> s1 = s).
  { intros <-. unfold s1. now destruct s. }
  assert (Hrun : Dpad.moves (e :: es) s =
                 (s1, if Dpad.direction_ne (Dpad.currentDirection s) d
                      then [Dpad.onPressCallback d] else [])).
  { cbn [Dpad.moves]. rewrite (dpad_move_pressed rect e s Hp Hr), He.
    destruct (Dpad.direction_ne (Dpad.currentDirection s) d) eqn:Hne.
    - fold s1. now rewrite (Hstay es Hes).
    - assert (Hd : Dpad.currentDirection s = d).
      { unfold Dpad.direction_ne in Hne.
        now destruct (Dpad.direction_eq_dec (Dpad.currentDirection s) d). }
      rewrite <- (Hs1 Hd). now rewrite (Hstay es Hes). }
  rewrite Hrun. cbn [fst snd]. split; [reflexivity|]. split; [reflexivity|].
  now rewrite (Hstay es' Hes').
Qed.

(** From [center], three moves to the right of the dead zone invoke the
    press callback once; two more invoke nothing. *)
Lemma dpad_press_fires_on_transition_witness :
  let rect := Dom.mkRect 0 0 100 100 in
  let s := Dpad.mkDpad 0.25 0 Dpad.center 1 (Some rect) 12.5 true in
  let e := Dom.mkPointer 1 90 50 in
  snd (Dpad.moves [e; e; e] s) = [Dpad.onPressCallback Dpad.right]
  /\ Dpad.currentDirection (fst (Dpad.moves [e; e; e] s)) = Dpad.right
  /\ snd (Dpad.moves [e; e] (fst (Dpad.moves [e; e; e] s))) = [].
Proof.
  intros rect s e.
  assert (Hd : Dpad.directionOf s rect e = Dpad.right).
  { unfold Dpad.directionOf, Dpad.offset. cbv zeta. cbn.
    rewrite strict_ne_refl. unfold centerX, centerY, Dpad.angleOf. cbn.
    rewrite Math_atan2_on_positive_x_axis by lra.
    rewrite (centerDistanceOf_eq _ _ 40) by lra.
    replace (0 * 180 / PI) with 0 by (field; apply PI_neq0).
    unfold Dpad.classify. now js_compare. }
  apply (dpad_press_fires_on_transition rect Dpad.right e [e; e] [e; e] s).
  - reflexivity.
  - reflexivity.
  - repeat constructor; exact Hd.
Defined.

(** ** Moves that do not change the value *)

(** C7, as the code has it.  While pressed, the joystick invokes the input
    callback on every move event, whatever it emitted before; the slider
    invokes the slide callback on a move event when the value it computes
    differs from [valuePercent], and only then. *)
Theorem move_callbacks :
  (forall (e : Dom.PointerEvent) (s : Joystick.JoystickController),
     Joystick.isPressed s = true ->
     Joystick.onJoysickMove e s =
     (s, [Joystick.onInputCallback (fst (Joystick.output s e))
                                   (snd (Joystick.output s e))]))
  /\ (forall (rect : Dom.DOMRect) (e : Dom.PointerEvent)
             (s : Slider.RetrackableSlider),
        Slider.isPressed s = true ->
        snd (Slider.onSliderMove rect e s) =
        (if Slider.valuePercent s
            !== Slider.valueOf (Slider.direction s) rect e
         then [Slider.onSlideCallback
                 (Slider.valueOf (Slider.direction s) rect e)]
         else [])).
Proof.
  split.
  - intros e s. apply joystick_move_pressed.
  - intros rect e s. apply slider_move_pressed.
Qed.

(** Both halves at a pressed widget: a joystick with a travel of 50, and
    a slider at 50 percent moved to the middle of its rectangle. *)
Lemma move_callbacks_witness :
  let dom := Joystick.mkLayout (Dom.mkRect 0 0 125 125) 50 in
  let j := Joystick.set_isPressed true
             (Joystick.new (Joystick.mkOptions None (Some 125)) dom) in
  let e := Dom.mkPointer 1 5 50 in
  let rect := Dom.mkRect 0 0 10 100 in
  let sl := Slider.mkSlider Slider.vertical (Some rect) true 50 in
  (Joystick.isPressed j = true /\
   Joystick.onJoysickMove e j =
   (j, [Joystick.onInputCallback (fst (Joystick.output j e))
                                 (snd (Joystick.output j e))]))
  /\ (Slider.isPressed sl = true /\
      snd (Slider.onSliderMove rect e sl) =
      (if Slider.valuePercent sl
          !== Slider.valueOf (Slider.direction sl) rect e
       then [Slider.onSlideCallback
               (Slider.valueOf (Slider.direction sl) rect e)]
       else [])).
Proof.
  intros dom j e rect sl. split; (split; [reflexivity|]).
  - apply (proj1 move_callbacks e j). reflexivity.
  - apply (proj2 move_callbacks rect e sl). reflexivity.
Defined.

(** C7 fails for the slider: pressed at the middle of its rectangle, it
    invokes the slide callback with 50; moved again to the same height,
    it invokes nothing. *)
Lemma slider_same_value_silent :
  let rect := Dom.mkRect 0 0 10 100 in
  let s0 := Slider.new None in
  let r1 := Slider.onSliderDown rect (Dom.mkPointer 1 5 50) s0 in
  let r2 := Slider.onSliderMove rect (Dom.mkPointer 1 7 50) (fst r1) in
  snd r1 = [Slider.onSlideCallback 50]
  /\ Slider.isPressed (fst r1) = true
  /\ snd r2 = [].
Proof.
  intros rect s0 r1 r2.
  assert (Hv : forall x : R,
             Slider.valueOf Slider.vertical rect (Dom.mkPointer 1 x 50) = 50).
  { intros x. unfold Slider.valueOf. cbn.
    apply (Math_clamp_round_IZR 50); [lia|lra]. }
  assert (H1 : r1 = (Slider.mkSlider Slider.vertical (Some rect) true 50,
                     [Slider.onSlideCallback 50])).
  { unfold r1, Slider.onSliderDown, Slider.setSliderValue. cbn.
    rewrite Hv. now js_compare. }
  rewrite H1. cbn [fst snd]. repeat split.
  unfold r2. rewrite H1. cbn [fst].
  unfold Slider.onSliderMove, Slider.setSliderValue. cbn.
  rewrite Hv. now js_compare.
Qed.

(** ** Joystick: the scenario with a travel of 50 *)

(** C8. A joystick without rotation whose travel is measured as 50 at the
    press: a press 50 to the right of the center emits (1, 0), a move to 50
    above the center emits (0, 1), and the release emits (0, 0) through the
    release callback and leaves the joystick not pressed. *)
Theorem joystick_scenario_R50 :
  forall (s : Joystick.JoystickController) (dom : Joystick.Layout)
         (p1 p2 p3 : Z) (x3 y3 : R),
    Joystick.rotation s = 0 ->
    (Joystick.radius s - Joystick.thumbOffsetWidth dom) / 1.5 = 50 ->
    let cx := centerX (Joystick.boundingClientRect dom) in
    let cy := centerY (Joystick.boundingClientRect dom) in
    let evs :=
      [ Joystick.pointerdown dom (Dom.mkPointer p1 (cx + 50) cy);
        Joystick.pointermove (Dom.mkPointer p2 cx (cy - 50));
        Joystick.pointerup (Dom.mkPointer p3 x3 y3) ] in
    snd (Joystick.run evs s) =
      [ Joystick.onInputCallback 1 0;
        Joystick.onInputCallback 0 1;
        Joystick.onReleaseCallback 0 0 ]
    /\ Joystick.isPressed (fst (Joystick.run evs s)) = false.
Proof.
  intros s dom p1 p2 p3 x3 y3 Hrot HR cx cy evs. subst evs.
  set (s1 := Joystick.updateContainerRectangle dom
               (Joystick.set_isPressed true s)).
  assert (Hdown : Joystick.output s1 (Dom.mkPointer p1 (cx + 50) cy) = (1, 0)).
  { rewrite output_within; cbn; try exact Hrot; rewrite HR.
    - f_equal; [rewrite (round2_IZR_div 100)|rewrite (round2_IZR_div 0)];
        fold cx cy; lra.
    - fold cx cy. rewrite (Math_hypot_eq _ _ 50); lra. }
  assert (Hmove : Joystick.output s1 (Dom.mkPointer p2 cx (cy - 50)) = (0, 1)).
  { rewrite output_within; cbn; try exact Hrot; rewrite HR.
    - f_equal; [rewrite (round2_IZR_div 0)|rewrite (round2_IZR_div 100)];
        fold cx cy; lra.
    - fold cx cy. rewrite (Math_hypot_eq _ _ 50); lra. }
  rewrite !joystick_run_cons. cbn [Joystick.run Joystick.dispatch fst snd].
  unfold Joystick.onJoysickDown. cbv zeta. fold s1.
  unfold Joystick.onJoysickMove at 1 2 3.
  replace (Joystick.isPressed s1) with true by reflexivity.
  cbn [negb]. rewrite Hdown. cbn [fst snd]. rewrite Hmove.
  cbn. split; reflexivity.
Qed.

(** The scenario on a joystick made with radius 125, whose thumb is
    measured 50 wide. *)
Lemma joystick_scenario_R50_witness :
  let dom := Joystick.mkLayout (Dom.mkRect 0 0 125 125) 50 in
  let s := Joystick.new (Joystick.mkOptions None (Some 125)) dom in
  let evs :=
    [ Joystick.pointerdown dom (Dom.mkPointer 1 (0 + 125 / 2 + 50) (0 + 125 / 2));
      Joystick.pointermove (Dom.mkPointer 1 (0 + 125 / 2) (0 + 125 / 2 - 50));
      Joystick.pointerup (Dom.mkPointer 1 0 0) ] in
  snd (Joystick.run evs s) =
    [ Joystick.onInputCallback 1 0;
      Joystick.onInputCallback 0 1;
      Joystick.onReleaseCallback 0 0 ]
  /\ Joystick.isPressed (fst (Joystick.run evs s)) = false.
Proof.
  intros dom s evs.
  apply (joystick_scenario_R50 s dom 1 1 1 0 0).
  - reflexivity.
  - cbn. unfold JS.truthy. rewrite (proj2 (strict_ne_true_iff 125 0)); lra.
Defined.

(** ** Joystick: rotation *)



(** ** Joystick: release *)

Lemma joystick_releases_callbacks (ces : list (bool * Dom.PointerEvent)) :
  forall s : Joystick.JoystickController,
    snd (Joystick.run (map joystick_release ces) s) =
    repeat (Joystick.onReleaseCallback 0 0) (length ces).
Proof.
  induction ces as [|ce ces IH]; intros s; [reflexivity|].
  cbn [map length repeat]. rewrite joystick_run_cons.
  rewrite joystick_dispatch_release. cbn [fst snd app]. now rewrite IH.
Qed.

Lemma joystick_releases_isPressed (ces : list (bool * Dom.PointerEvent)) :
  forall s : Joystick.JoystickController,
    Joystick.isPressed s = false ->
    Joystick.isPressed (fst (Joystick.run (map joystick_release ces) s))
    = false.
Proof.
  induction ces as [|ce ces IH]; intros s Hs; [exact Hs|].
  cbn [map]. rewrite joystick_run_cons, joystick_dispatch_release.
  cbn [fst]. now apply IH.
Qed.

(** C10. Every release or cancel event of the joystick invokes the release
    callback with (0, 0) and leaves [isPressed] false, whatever the state
    was: [n + 1] releases in a row from any state, pressed or not, invoke
    it [n + 1] times. *)
Theorem joystick_release_unguarded :
  forall (s : Joystick.JoystickController)
         (ce : bool * Dom.PointerEvent)
         (ces : list (bool * Dom.PointerEvent)),
    Joystick.dispatch (joystick_release ce) s =
      (Joystick.set_isPressed false s, [Joystick.onReleaseCallback 0 0])
    /\ snd (Joystick.run (map joystick_release (ce :: ces)) s) =
       repeat (Joystick.onReleaseCallback 0 0) (S (length ces))
    /\ Joystick.isPressed
         (fst (Joystick.run (map joystick_release (ce :: ces)) s)) = false.
Proof.
  intros s ce ces. split; [apply joystick_dispatch_release|]. split.
  - apply (joystick_releases_callbacks (ce :: ces)).
  - cbn [map]. rewrite joystick_run_cons, joystick_dispatch_release.
    cbn [fst]. now apply joystick_releases_isPressed.
Qed.

(** * More of the handlers *)

(** ** Button: any run of events *)

Lemma button_run_cons (ev : ButtonEvents.Event)
  (evs : list ButtonEvents.Event) (s : Button.ButtonController) :
  ButtonEvents.run (ev :: evs) s =
  (fst (ButtonEvents.run evs (fst (ButtonEvents.dispatch ev s))),
   snd (ButtonEvents.dispatch ev s)
   ++ snd (ButtonEvents.run evs (fst (ButtonEvents.dispatch ev s)))).
Proof.
  simpl. destruct (ButtonEvents.dispatch ev s) as [s1 out1]. simpl.
  now destruct (ButtonEvents.run evs s1).
Qed.

(** Whatever events reach the button, in whatever order, its callbacks
    take turns: a press callback is never followed by another press
    callback, nor a release by a release, and the first one is a release
    exactly when the button was pressed.  The button ends pressed or not
    according to the number of callbacks it invoked. *)
Theorem button_callbacks_alternate :
  forall (evs : list ButtonEvents.Event) (s : Button.ButtonController),
    ButtonEvents.alternates (Button.isPressed s)
      (snd (ButtonEvents.run evs s)) = true
    /\ Button.isPressed (fst (ButtonEvents.run evs s)) =
       xorb (Button.isPressed s)
            (Nat.odd (length (snd (ButtonEvents.run evs s)))).
Proof.
  induction evs as [|ev evs IH]; intros s.
  - cbn. now destruct (Button.isPressed s).
  - rewrite button_run_cons.
    destruct (IH (fst (ButtonEvents.dispatch ev s))) as [IHa IHp].
    cbn [fst snd]. rewrite IHp. clear IHp.
    revert IHa.
    set (out := snd (ButtonEvents.run evs _)).
    destruct s as [[|]], ev; cbn; intros IHa; rewrite ?IHa;
      try (split; [reflexivity|]);
      try rewrite Nat.odd_succ, <- Nat.negb_odd;
      now destruct (Nat.odd (length out)).
Qed.

(** For a radius between 0 and 100 the border radius [render] writes is
    between 0 and 50 percent, it grows with the radius, and it is 50
    percent, a circle, at radius 100. *)
Theorem button_borderRadius_range :
  forall r r' : R,
    0 < r -> r <= r' -> r' <= 100 ->
    0 < ButtonEvents.borderRadius r
    /\ ButtonEvents.borderRadius r <= ButtonEvents.borderRadius r'
    /\ ButtonEvents.borderRadius r' <= 50
    /\ ButtonEvents.borderRadius 100 = 50.
Proof.
  intros r r' Hr Hrr' Hr'.
  assert (H1 : Rpower 1 1.5 = 1).
  { unfold Rpower. rewrite ln_1, Rmult_0_r. apply exp_0. }
  assert (Hmono : forall a b, 0 < a -> a <= b ->
            ButtonEvents.borderRadius a <= ButtonEvents.borderRadius b).
  { intros a b Ha Hab. unfold ButtonEvents.borderRadius, Math_pow.
    apply Rmult_le_compat_r; [lra|]. apply Rle_Rpower_l; lra. }
  assert (H100 : ButtonEvents.borderRadius 100 = 50).
  { unfold ButtonEvents.borderRadius, Math_pow.
    replace (100 / 100) with 1 by lra. rewrite H1. lra. }
  split; [|split; [|split]].
  - unfold ButtonEvents.borderRadius, Math_pow.
    apply Rmult_lt_0_compat; [|lra]. unfold Rpower. apply exp_pos.
  - now apply Hmono.
  - rewrite <- H100. apply Hmono; lra.
  - exact H100.
Qed.

(** A button of radius 36 and one of radius 64. *)
Lemma button_borderRadius_range_witness :
  (0 < 36 /\ 36 <= 64 /\ 64 <= 100)
  /\ 0 < ButtonEvents.borderRadius 36
  /\ ButtonEvents.borderRadius 36 <= ButtonEvents.borderRadius 64
  /\ ButtonEvents.borderRadius 64 <= 50
  /\ ButtonEvents.borderRadius 100 = 50.
Proof.
  assert (H : 0 < 36 /\ 36 <= 64 /\ 64 <= 100) by lra.
  split; [exact H|].
  apply (button_borderRadius_range 36 64); lra.
Defined.

(** ** Joystick: the thumb and the range of the output *)

Lemma clamp_hypot (maxd x y : R) :
  0 <= maxd ->
  JS.Math_hypot (fst (Joystick.clamp maxd x y))
                (snd (Joystick.clamp maxd x y))
  = JS.Math_min (JS.Math_hypot x y) maxd.
Proof.
  intros Hm. unfold JS.Math_min.
  destruct (Rle_lt_dec (JS.Math_hypot x y) maxd) as [Hle|Hgt].
  - rewrite clamp_within by exact Hle. cbn [fst snd].
    now rewrite Rmin_left.
  - rewrite clamp_outside by lra. cbn [fst snd].
    rewrite Math_hypot_scale.
    + rewrite Rmin_right by lra. field. lra.
    + unfold Rdiv. apply Rmult_le_pos; [exact Hm|].
      apply Rlt_le, Rinv_0_lt_compat. lra.
Qed.

Lemma unrotate_hypot (rot x y : R) :
  JS.Math_hypot (fst (Joystick.unrotate rot x y))
                (snd (Joystick.unrotate rot x y))
  = JS.Math_hypot x y.
Proof. unfold JS.Math_hypot. now rewrite unrotate_norm. Qed.

Lemma thumbTranslate_eq (s : Joystick.JoystickController)
  (e : Dom.PointerEvent) :
  JoystickView.thumbTranslate s e =
  Joystick.unrotate (Joystick.rotation s)
    (fst (Joystick.clamp (Joystick.thumbMaxDistance s)
            (Dom.clientX e - centerX (Joystick.baseRect s))
            (Dom.clientY e - centerY (Joystick.baseRect s))))
    (snd (Joystick.clamp (Joystick.thumbMaxDistance s)
            (Dom.clientX e - centerX (Joystick.baseRect s))
            (Dom.clientY e - centerY (Joystick.baseRect s)))).
Proof.
  unfold JoystickView.thumbTranslate. cbv zeta.
  now destruct (Joystick.clamp _ _ _).
Qed.

(** The thumb never leaves the travel: when the travel is not negative,
    the thumb is moved from the center by the distance of the pointer or
    by the travel, whichever is less. *)
Theorem joystick_thumb_within_travel :
  forall (s : Joystick.JoystickController) (e : Dom.PointerEvent),
    0 <= Joystick.thumbMaxDistance s ->
    let dx := Dom.clientX e - centerX (Joystick.baseRect s) in
    let dy := Dom.clientY e - centerY (Joystick.baseRect s) in
    let t := JoystickView.thumbTranslate s e in
    JS.Math_hypot (fst t) (snd t) =
      JS.Math_min (JS.Math_hypot dx dy) (Joystick.thumbMaxDistance s)
    /\ JS.Math_hypot (fst t) (snd t) <= Joystick.thumbMaxDistance s.
Proof.
  intros s e Hm dx dy t.
  assert (Heq : JS.Math_hypot (fst t) (snd t) =
                JS.Math_min (JS.Math_hypot dx dy)
                            (Joystick.thumbMaxDistance s)).
  { unfold t. rewrite thumbTranslate_eq, unrotate_hypot.
    now apply clamp_hypot. }
  split; [exact Heq|]. rewrite Heq. apply Rmin_r.
Qed.

(** A joystick with a travel of 50 and a pointer 100 to the right of the
    center. *)
Lemma joystick_thumb_within_travel_witness :
  let s := Joystick.mkJoystick 30 125 true (Dom.mkRect 0 0 125 125) 50 in
  let e := Dom.mkPointer 1 (125 / 2 + 100) (125 / 2) in
  let dx := Dom.clientX e - centerX (Joystick.baseRect s) in
  let dy := Dom.clientY e - centerY (Joystick.baseRect s) in
  let t := JoystickView.thumbTranslate s e in
  0 <= Joystick.thumbMaxDistance s
  /\ JS.Math_hypot (fst t) (snd t) =
       JS.Math_min (JS.Math_hypot dx dy) (Joystick.thumbMaxDistance s)
  /\ JS.Math_hypot (fst t) (snd t) <= Joystick.thumbMaxDistance s.
Proof.
  intros s e dx dy t.
  assert (H : 0 <= Joystick.thumbMaxDistance s) by (cbn; lra).
  split; [exact H|]. apply (joystick_thumb_within_travel s e H).
Defined.

Lemma cssRotate_unrotate (rot x y : R) :
  cssRotate rot (fst (Joystick.unrotate rot x y))
                (snd (Joystick.unrotate rot x y)) = (x, y).
Proof.
  unfold Joystick.unrotate, cssRotate, JS.truthy.
  destruct (rot !== 0) eqn:Hrot.
  - pose proof (rotateBy_inverse (- rot * PI / 180) x y) as H.
    replace (- (- rot * PI / 180)) with (rot * PI / 180) in H by lra.
    exact H.
  - apply strict_ne_false_iff in Hrot. subst rot. cbn [fst snd].
    replace (0 * PI / 180) with 0 by lra. apply rotateBy_0.
Qed.

(** The thumb is shown under the pointer: the base element being
    displayed rotated, the thumb appears at the clamped offset of the
    pointer on the screen, and at the pointer itself while the pointer is
    within the travel. *)
Theorem joystick_thumb_under_pointer :
  forall (s : Joystick.JoystickController) (e : Dom.PointerEvent),
    0 <= Joystick.thumbMaxDistance s ->
    let dx := Dom.clientX e - centerX (Joystick.baseRect s) in
    let dy := Dom.clientY e - centerY (Joystick.baseRect s) in
    let t := JoystickView.thumbTranslate s e in
    cssRotate (Joystick.rotation s) (fst t) (snd t) =
      Joystick.clamp (Joystick.thumbMaxDistance s) dx dy
    /\ (JS.Math_hypot dx dy <= Joystick.thumbMaxDistance s ->
        cssRotate (Joystick.rotation s) (fst t) (snd t) = (dx, dy)).
Proof.
  intros s e _ dx dy t.
  assert (H : cssRotate (Joystick.rotation s) (fst t) (snd t) =
              Joystick.clamp (Joystick.thumbMaxDistance s) dx dy).
  { unfold t. rewrite thumbTranslate_eq, cssRotate_unrotate.
    fold dx dy. now destruct (Joystick.clamp _ dx dy). }
  split; [exact H|]. intros Hd. rewrite H. now apply clamp_within.
Qed.

(** A joystick displayed rotated by 90 degrees, with a travel of 50 and a
    pointer 30 below the center. *)
Lemma joystick_thumb_under_pointer_witness :
  let s := Joystick.mkJoystick 90 125 true (Dom.mkRect 0 0 125 125) 50 in
  let e := Dom.mkPointer 1 (125 / 2) (125 / 2 + 30) in
  let dx := Dom.clientX e - centerX (Joystick.baseRect s) in
  let dy := Dom.clientY e - centerY (Joystick.baseRect s) in
  let t := JoystickView.thumbTranslate s e in
  0 <= Joystick.thumbMaxDistance s
  /\ cssRotate (Joystick.rotation s) (fst t) (snd t) =
       Joystick.clamp (Joystick.thumbMaxDistance s) dx dy
  /\ (JS.Math_hypot dx dy <= Joystick.thumbMaxDistance s ->
      cssRotate (Joystick.rotation s) (fst t) (snd t) = (dx, dy)).
Proof.
  intros s e dx dy t.
  assert (H : 0 <= Joystick.thumbMaxDistance s) by (cbn; lra).
  split; [exact H|]. apply (joystick_thumb_under_pointer s e H).
Defined.

Lemma joystick_thumb_bound (s : Joystick.JoystickController)
  (e : Dom.PointerEvent) :
  0 <= Joystick.thumbMaxDistance s ->
  - Joystick.thumbMaxDistance s
    <= fst (JoystickView.thumbTranslate s e) <= Joystick.thumbMaxDistance s
  /\ - Joystick.thumbMaxDistance s
     <= snd (JoystickView.thumbTranslate s e) <= Joystick.thumbMaxDistance s.
Proof.
  intros Hm.
  assert (Hh : JS.Math_hypot (fst (JoystickView.thumbTranslate s e))
                             (snd (JoystickView.thumbTranslate s e))
               <= Joystick.thumbMaxDistance s).
  { rewrite thumbTranslate_eq, unrotate_hypot, clamp_hypot by exact Hm.
    apply Rmin_r. }
  set (t := JoystickView.thumbTranslate s e) in *.
  pose proof (Math_hypot_nonneg (fst t) (snd t)) as Hn.
  pose proof (Math_hypot_sqr (fst t) (snd t)) as Hs.
  split; split; nra.
Qed.

Lemma round2_hundredth (v : R) :
  -1 <= v <= 1 ->
  exists k : Z, (-100 <= k <= 100)%Z /\ Joystick.round2 v = IZR k / 100.
Proof.
  intros [Hlo Hhi]. exists (Zfloor (v * 100 + / 2)). split.
  - split.
    + apply Zfloor_lub. lra.
    + pose proof (Zfloor_bound (v * 100 + / 2)) as [Hb _].
      apply Z.lt_succ_r, lt_IZR. rewrite succ_IZR. lra.
  - reflexivity.
Qed.

Lemma output_eq (s : Joystick.JoystickController) (e : Dom.PointerEvent) :
  Joystick.output s e =
  (Joystick.round2 (fst (JoystickView.thumbTranslate s e)
                    / Joystick.thumbMaxDistance s),
   Joystick.round2 (- snd (JoystickView.thumbTranslate s e)
                    / Joystick.thumbMaxDistance s)).
Proof.
  unfold Joystick.output, Joystick.mapOffset, JoystickView.thumbTranslate.
  cbv zeta. destruct (Joystick.clamp _ _ _) as [x y].
  now destruct (Joystick.unrotate _ x y).
Qed.

(** With a positive travel, the two numbers the joystick emits are whole
    hundredths between -1 and 1, wherever the pointer is. *)
Theorem joystick_output_range :
  forall (s : Joystick.JoystickController) (e : Dom.PointerEvent),
    0 < Joystick.thumbMaxDistance s ->
    exists kx ky : Z,
      (-100 <= kx <= 100)%Z /\ (-100 <= ky <= 100)%Z
      /\ Joystick.output s e = (IZR kx / 100, IZR ky / 100)
      /\ -1 <= fst (Joystick.output s e) <= 1
      /\ -1 <= snd (Joystick.output s e) <= 1.
Proof.
  intros s e Hm.
  destruct (joystick_thumb_bound s e) as [Hx Hy]; [lra|].
  set (t := JoystickView.thumbTranslate s e) in *.
  set (m := Joystick.thumbMaxDistance s) in *.
  assert (Hvx : -1 <= fst t / m <= 1).
  { split.
    - apply (Rmult_le_reg_r m); [exact Hm|].
      replace (fst t / m * m) with (fst t) by (field; lra). lra.
    - apply (Rmult_le_reg_r m); [exact Hm|].
      replace (fst t / m * m) with (fst t) by (field; lra). lra. }
  assert (Hvy : -1 <= - snd t / m <= 1).
  { split.
    - apply (Rmult_le_reg_r m); [exact Hm|].
      replace (- snd t / m * m) with (- snd t) by (field; lra). lra.
    - apply (Rmult_le_reg_r m); [exact Hm|].
      replace (- snd t / m * m) with (- snd t) by (field; lra). lra. }
  destruct (round2_hundredth _ Hvx) as [kx [Hkx Hrx]].
  destruct (round2_hundredth _ Hvy) as [ky [Hky Hry]].
  exists kx, ky. rewrite output_eq. fold t m. rewrite Hrx, Hry.
  cbn [fst snd]. destruct Hkx as [Hk1 Hk2], Hky as [Hk3 Hk4].
  apply IZR_le in Hk1, Hk2, Hk3, Hk4.
  repeat split; try lia; try lra; try (apply le_IZR; lra).
Qed.

(** A pressed joystick with a travel of 50, rotated by 30 degrees. *)
Lemma joystick_output_range_witness :
  let s := Joystick.mkJoystick 30 125 true (Dom.mkRect 0 0 125 125) 50 in
  let e := Dom.mkPointer 1 300 (-20) in
  0 < Joystick.thumbMaxDistance s
  /\ exists kx ky : Z,
       (-100 <= kx <= 100)%Z /\ (-100 <= ky <= 100)%Z
       /\ Joystick.output s e = (IZR kx / 100, IZR ky / 100)
       /\ -1 <= fst (Joystick.output s e) <= 1
       /\ -1 <= snd (Joystick.output s e) <= 1.
Proof.
  intros s e.
  assert (H : 0 < Joystick.thumbMaxDistance s) by (cbn; lra).
  split; [exact H|]. apply (joystick_output_range s e H).
Defined.

(** A press exactly at the center of the base emits (0, 0), whatever the
    rotation, when the travel measured at the press is positive. *)
Theorem joystick_press_at_center :
  forall (dom : Joystick.Layout) (id : Z) (s : Joystick.JoystickController),
    0 < (Joystick.radius s - Joystick.thumbOffsetWidth dom) / 1.5 ->
    let e := Dom.mkPointer id (centerX (Joystick.boundingClientRect dom))
                              (centerY (Joystick.boundingClientRect dom)) in
    snd (Joystick.onJoysickDown dom e s) = [Joystick.onInputCallback 0 0].
Proof.
  intros dom id s Hm e. rewrite joystick_down_eq. cbn [snd].
  set (s' := Joystick.updateContainerRectangle dom
               (Joystick.set_isPressed true s)).
  assert (Hout : Joystick.output s' e = (0, 0)).
  { unfold Joystick.output, e. cbn.
    set (m := (Joystick.radius s - Joystick.thumbOffsetWidth dom) / 1.5) in *.
    replace (centerX (Joystick.boundingClientRect dom)
             - centerX (Joystick.boundingClientRect dom)) with 0 by ring.
    replace (centerY (Joystick.boundingClientRect dom)
             - centerY (Joystick.boundingClientRect dom)) with 0 by ring.
    unfold Joystick.mapOffset.
    rewrite clamp_within by (rewrite (Math_hypot_eq 0 0 0); lra).
    assert (Hrot : forall rot, Joystick.unrotate rot 0 0 = (0, 0)).
    { intros rot. unfold Joystick.unrotate, rotateBy.
      destruct (JS.truthy rot); [|reflexivity]. f_equal; ring. }
    rewrite Hrot.
    rewrite (round2_IZR_div 0), (round2_IZR_div 0) by (field; lra).
    f_equal; lra. }
  now rewrite Hout.
Qed.

(** A joystick of radius 125 whose thumb is measured 50 wide, displayed
    rotated by 45 degrees. *)
Lemma joystick_press_at_center_witness :
  let dom := Joystick.mkLayout (Dom.mkRect 10 20 125 125) 50 in
  let s := Joystick.mkJoystick 45 125 false (Dom.mkRect 0 0 0 0) 0 in
  let e := Dom.mkPointer 7 (centerX (Joystick.boundingClientRect dom))
                           (centerY (Joystick.boundingClientRect dom)) in
  0 < (Joystick.radius s - Joystick.thumbOffsetWidth dom) / 1.5
  /\ snd (Joystick.onJoysickDown dom e s) = [Joystick.onInputCallback 0 0].
Proof.
  intros dom s e.
  assert (H : 0 < (Joystick.radius s - Joystick.thumbOffsetWidth dom) / 1.5)
    by (cbn; lra).
  split; [exact H|]. apply (joystick_press_at_center dom 7%Z s H).
Defined.

(** ** Joystick: any run of events *)

Lemma joystick_dispatch_config (ev : Joystick.Event)
  (s : Joystick.JoystickController) :
  Joystick.rotation (fst (Joystick.dispatch ev s)) = Joystick.rotation s
  /\ Joystick.radius (fst (Joystick.dispatch ev s)) = Joystick.radius s.
Proof.
  destruct ev as [e|e|dom e|e]; cbn [Joystick.dispatch].
  - split; reflexivity.
  - split; reflexivity.
  - rewrite joystick_down_eq. split; reflexivity.
  - unfold Joystick.onJoysickMove.
    destruct (negb (Joystick.isPressed s)); [split; reflexivity|].
    destruct (Joystick.output s e). split; reflexivity.
Qed.

Lemma joystick_dispatch_count (ev : Joystick.Event)
  (s : Joystick.JoystickController) :
  (length (snd (Joystick.dispatch ev s)) <= 1)%nat.
Proof.
  destruct ev as [e|e|dom e|e]; cbn [Joystick.dispatch].
  - cbn. lia.
  - cbn. lia.
  - rewrite joystick_down_eq. cbn. lia.
  - unfold Joystick.onJoysickMove.
    destruct (negb (Joystick.isPressed s)); [cbn; lia|].
    destruct (Joystick.output s e). cbn. lia.
Qed.

(** No run of events changes the rotation or the radius the joystick was
    made with, and a run invokes at most one callback per event. *)
Theorem joystick_run_keeps_config :
  forall (evs : list Joystick.Event) (s : Joystick.JoystickController),
    Joystick.rotation (fst (Joystick.run evs s)) = Joystick.rotation s
    /\ Joystick.radius (fst (Joystick.run evs s)) = Joystick.radius s
    /\ (length (snd (Joystick.run evs s)) <= length evs)%nat.
Proof.
  induction evs as [|ev evs IH]; intros s.
  - cbn. repeat split. lia.
  - rewrite joystick_run_cons. cbn [fst snd].
    destruct (IH (fst (Joystick.dispatch ev s))) as [Hrot [Hrad Hlen]].
    destruct (joystick_dispatch_config ev s) as [Hrot' Hrad'].
    pose proof (joystick_dispatch_count ev s) as Hc.
    rewrite Hrot, Hrad, Hrot', Hrad', length_app. cbn [length].
    repeat split. lia.
Qed.

(** A joystick that is not pressed ignores move events: any number of
    them leaves every field as it was and invokes nothing; so between a
    release and the next press the input callback is silent. *)
Theorem joystick_idle_moves_silent :
  forall (es : list Dom.PointerEvent) (e0 : bool * Dom.PointerEvent)
         (s : Joystick.JoystickController),
    Joystick.run (map Joystick.pointermove es)
      (Joystick.set_isPressed false s) = (Joystick.set_isPressed false s, [])
    /\ snd (Joystick.run (joystick_release e0 :: map Joystick.pointermove es) s)
       = [Joystick.onReleaseCallback 0 0].
Proof.
  assert (H : forall es s,
             Joystick.run (map Joystick.pointermove es)
               (Joystick.set_isPressed false s)
             = (Joystick.set_isPressed false s, [])).
  { induction es as [|e es IH]; intros s; [reflexivity|].
    cbn [map]. rewrite joystick_run_cons. cbn [Joystick.dispatch].
    unfold Joystick.onJoysickMove at 1 2 3. cbn [Joystick.isPressed
      Joystick.set_isPressed negb fst snd app]. now rewrite IH. }
  intros es e0 s. split; [apply H|].
  rewrite joystick_run_cons, joystick_dispatch_release. cbn [fst snd].
  now rewrite H.
Qed.

(** When the thumb is measured as wide as [render] makes it, the travel
    measured is two fifths of the radius: positive for a positive
    radius, and 2 for the default radius of 5. *)
Theorem joystick_travel_of_radius :
  forall (dom : Joystick.Layout) (s : Joystick.JoystickController),
    Joystick.thumbOffsetWidth dom
      = JoystickView.thumbWidth (Joystick.radius s) ->
    Joystick.thumbMaxDistance (Joystick.updateContainerRectangle dom s)
      = 2 * Joystick.radius s / 5
    /\ (0 < Joystick.radius s ->
        0 < Joystick.thumbMaxDistance
              (Joystick.updateContainerRectangle dom s)).
Proof.
  intros dom s Hw. cbn. rewrite Hw. unfold JoystickView.thumbWidth.
  split; [lra|]. intros Hr. lra.
Qed.

(** A joystick made with the default radius, whose thumb is 2 wide. *)
Lemma joystick_travel_of_radius_witness :
  let dom := Joystick.mkLayout (Dom.mkRect 0 0 5 5) 2 in
  let s := Joystick.new (Joystick.mkOptions None None) dom in
  Joystick.thumbOffsetWidth dom = JoystickView.thumbWidth (Joystick.radius s)
  /\ Joystick.thumbMaxDistance (Joystick.updateContainerRectangle dom s)
     = 2 * Joystick.radius s / 5
  /\ (0 < Joystick.radius s ->
      0 < Joystick.thumbMaxDistance
            (Joystick.updateContainerRectangle dom s)).
Proof.
  intros dom s.
  assert (H : Joystick.thumbOffsetWidth dom
              = JoystickView.thumbWidth (Joystick.radius s)).
  { cbn. unfold JoystickView.thumbWidth. lra. }
  split; [exact H|]. apply (joystick_travel_of_radius dom s H).
Defined.

(** ** Dpad: any run of events *)

Lemma dpad_move_result (e : Dom.PointerEvent) (s : Dpad.DpadController)
  (s' : Dpad.DpadController) (out : list Dpad.Callback) :
  Dpad.onDpadMove e s = Some (s', out) ->
  (s' = s /\ out = [])
  \/ (exists d, Dpad.isPressed s = true /\ d <> Dpad.currentDirection s
                /\ s' = Dpad.set_currentDirection d s
                /\ out = [Dpad.onPressCallback d]).
Proof.
  unfold Dpad.onDpadMove.
  destruct (Dpad.isPressed s) eqn:Hp; cbn [negb].
  - destruct (Dpad.baseRect s) as [rect|]; [|discriminate].
    destruct (Dpad.direction_ne _ _) eqn:Hne; intros H; injection H as <- <-.
    + right. exists (Dpad.directionOf s rect e).
      apply direction_ne_true_iff in Hne. repeat split. congruence.
    + now left.
  - intros H. injection H as <- <-. now left.
Qed.

Lemma dpad_move_defined (e : Dom.PointerEvent) (s : Dpad.DpadController) :
  (Dpad.isPressed s = true -> Dpad.baseRect s <> None) ->
  Dpad.onDpadMove e s <> None.
Proof.
  intros H. unfold Dpad.onDpadMove.
  destruct (Dpad.isPressed s); cbn [negb]; [|discriminate].
  destruct (Dpad.baseRect s); [|now elim H].
  destruct (Dpad.direction_ne _ _); discriminate.
Qed.

Lemma dpad_wellFormed_set_currentDirection (d : Dpad.direction)
  (s : Dpad.DpadController) :
  Dpad.isPressed s = true ->
  DpadEvents.wellFormed s ->
  DpadEvents.wellFormed (Dpad.set_currentDirection d s).
Proof.
  intros Hp [H1 [H2 H3]]. split; [exact H1|]. split; [exact H2|].
  cbn. intros Hf. congruence.
Qed.

Lemma dpad_wellFormed_acquire (id : Z) (rect : Dom.DOMRect)
  (s : Dpad.DpadController) :
  Dpad.isPressed (Dpad.acquire id rect s) = true
  /\ DpadEvents.wellFormed (Dpad.acquire id rect s).
Proof.
  split; [reflexivity|]. split; [|split].
  - cbn. discriminate.
  - cbn. intros r H. injection H as <-. reflexivity.
  - cbn. discriminate.
Qed.

Lemma dpad_wellFormed_move (e : Dom.PointerEvent)
  (s s' : Dpad.DpadController) (out : list Dpad.Callback) :
  DpadEvents.wellFormed s ->
  Dpad.onDpadMove e s = Some (s', out) ->
  DpadEvents.wellFormed s'.
Proof.
  intros Hwf Hm.
  destruct (dpad_move_result e s s' out Hm)
    as [[-> _]|[d [Hp [_ [-> _]]]]]; [exact Hwf|].
  now apply dpad_wellFormed_set_currentDirection.
Qed.

Lemma dpad_wellFormed_dispatch (ev : DpadEvents.Event)
  (s s' : Dpad.DpadController) (out : list Dpad.Callback) :
  DpadEvents.wellFormed s ->
  DpadEvents.dispatch ev s = Some (s', out) ->
  DpadEvents.wellFormed s'.
Proof.
  intros Hwf. destruct ev as [rect e|e| |rect [|t ts]| ];
    cbn [DpadEvents.dispatch Dpad.onDpadDown].
  - apply dpad_wellFormed_move, dpad_wellFormed_acquire.
  - now apply dpad_wellFormed_move.
  - intros H. injection H as <- _. destruct Hwf as [_ [H2 _]].
    split; [discriminate|]. split; [exact H2|]. now split.
  - intros H. now injection H as <- _.
  - apply dpad_wellFormed_move, dpad_wellFormed_acquire.
  - intros H. injection H as <- _. destruct Hwf as [_ [H2 _]].
    split; [discriminate|]. split; [exact H2|]. now split.
Qed.

Lemma dpad_dispatch_defined (ev : DpadEvents.Event)
  (s : Dpad.DpadController) :
  DpadEvents.wellFormed s -> DpadEvents.dispatch ev s <> None.
Proof.
  intros [H1 _]. destruct ev as [rect e|e| |rect [|t ts]| ];
    cbn [DpadEvents.dispatch Dpad.onDpadDown]; try discriminate.
  - apply dpad_move_defined. cbn. discriminate.
  - now apply dpad_move_defined.
  - apply dpad_move_defined. cbn. discriminate.
Qed.

Lemma dpad_wellFormed_run (evs : list DpadEvents.Event) :
  forall s : Dpad.DpadController,
    DpadEvents.wellFormed s ->
    DpadEvents.wellFormed (fst (DpadEvents.run evs s)).
Proof.
  induction evs as [|ev evs IH]; intros s Hwf; [exact Hwf|].
  cbn [DpadEvents.run].
  destruct (DpadEvents.dispatch ev s) as [[s1 out1]|] eqn:Hd.
  - pose proof (dpad_wellFormed_dispatch ev s s1 out1 Hwf Hd) as Hwf1.
    specialize (IH s1 Hwf1). now destruct (DpadEvents.run evs s1).
  - now apply IH.
Qed.

Lemma dpad_never_raises_wf (evs : list DpadEvents.Event)
  (options : Dpad.DpadOptions) :
  DpadEvents.wellFormed (fst (DpadEvents.run evs (Dpad.new options))).
Proof.
  apply dpad_wellFormed_run. split; [|split].
  - cbn. discriminate.
  - cbn. discriminate.
  - cbn. now split.
Qed.

(** Whatever events a dpad has handled since it was made, no handler
    raises on the next one: a pressed dpad always has its rectangle.  Its
    register distance is the one of the rectangle measured last, and
    whenever it is not pressed its direction is [center] and it holds no
    pointer. *)
Theorem dpad_never_raises :
  forall (evs : list DpadEvents.Event) (options : Dpad.DpadOptions)
         (ev : DpadEvents.Event),
    let s := fst (DpadEvents.run evs (Dpad.new options)) in
    DpadEvents.dispatch ev s <> None
    /\ DpadEvents.wellFormed s.
Proof.
  intros evs options ev s.
  assert (Hwf : DpadEvents.wellFormed s) by apply dpad_never_raises_wf.
  split; [now apply dpad_dispatch_defined|exact Hwf].
Qed.

Lemma dpad_no_repeat_dispatch (ev : DpadEvents.Event)
  (s s' : Dpad.DpadController) (out out' : list Dpad.Callback) :
  DpadEvents.dispatch ev s = Some (s', out) ->
  DpadEvents.no_repeat (Dpad.currentDirection s') out' = true ->
  DpadEvents.no_repeat (Dpad.currentDirection s) (out ++ out') = true.
Proof.
  assert (Hmove : forall e s0,
            Dpad.currentDirection s0 = Dpad.currentDirection s ->
            Dpad.onDpadMove e s0 = Some (s', out) ->
            DpadEvents.no_repeat (Dpad.currentDirection s') out' = true ->
            DpadEvents.no_repeat (Dpad.currentDirection s) (out ++ out')
            = true).
  { intros e s0 Hc Hm Hn.
    destruct (dpad_move_result e s0 s' out Hm)
      as [[-> ->]|[d [_ [Hne [-> ->]]]]].
    - cbn [app]. now rewrite <- Hc.
    - cbn [app DpadEvents.no_repeat]. cbn in Hn. rewrite Hn, andb_true_r.
      apply direction_ne_true_iff. congruence. }
  destruct ev as [rect e|e| |rect [|t ts]| ];
    cbn [DpadEvents.dispatch Dpad.onDpadDown].
  - now apply Hmove.
  - now apply Hmove.
  - intros H. injection H as <- <-. exact (fun Hn => Hn).
  - intros H. injection H as <- <-. exact (fun Hn => Hn).
  - now apply Hmove.
  - intros H. injection H as <- <-. exact (fun Hn => Hn).
Qed.

(** In any run of events, from any state, the dpad never invokes the
    press callback with the direction it reported last: every press
    callback reports a direction other than the one of the callback
    before it, a release callback counting as [center], and other than
    the direction at the start when it is the first. *)
Theorem dpad_press_never_repeats :
  forall (evs : list DpadEvents.Event) (s : Dpad.DpadController),
    DpadEvents.no_repeat (Dpad.currentDirection s)
      (snd (DpadEvents.run evs s)) = true.
Proof.
  induction evs as [|ev evs IH]; intros s; [reflexivity|].
  cbn [DpadEvents.run].
  destruct (DpadEvents.dispatch ev s) as [[s1 out1]|] eqn:Hd.
  - specialize (IH s1). destruct (DpadEvents.run evs s1) as [s2 out2].
    cbn [snd] in *. now apply (dpad_no_repeat_dispatch ev s s1).
  - apply IH.
Qed.

(** ** Dpad: directions of the plane *)

Lemma angleOf_value (x y a : R) :
  JS.Math_atan2 (- y) x = a * PI / 180 -> Dpad.angleOf x y = a.
Proof.
  intros H. unfold Dpad.angleOf. rewrite H. field. apply PI_neq0.
Qed.

Lemma atan_m1 : atan (-1) = - (PI / 4).
Proof.
  replace (-1) with (- (1)) by lra. now rewrite atan_opp, atan_1.
Qed.

Lemma Math_atan2_axes (d : R) :
  0 < d ->
  JS.Math_atan2 0 d = 0
  /\ JS.Math_atan2 d 0 = PI / 2
  /\ JS.Math_atan2 0 (- d) = PI
  /\ JS.Math_atan2 (- d) 0 = - PI / 2.
Proof.
  intros Hd. unfold JS.Math_atan2. repeat split.
  - destruct (Rlt_dec 0 d); [|lra].
    replace (0 / d) with 0 by (field; lra). apply atan_0.
  - destruct (Rlt_dec 0 0); [lra|]. destruct (Rlt_dec 0 d); [reflexivity|lra].
  - destruct (Rlt_dec 0 (- d)); [lra|]. destruct (Rlt_dec (- d) 0); [|lra].
    destruct (Rle_dec 0 0); [|lra].
    replace (0 / - d) with 0 by (field; lra). rewrite atan_0. lra.
  - destruct (Rlt_dec 0 0); [lra|]. destruct (Rlt_dec 0 (- d)); [lra|].
    destruct (Rlt_dec (- d) 0); [reflexivity|lra].
Qed.

Lemma Math_atan2_diagonals (d : R) :
  0 < d ->
  JS.Math_atan2 d d = PI / 4
  /\ JS.Math_atan2 d (- d) = 3 * PI / 4
  /\ JS.Math_atan2 (- d) (- d) = - (3 * PI / 4)
  /\ JS.Math_atan2 (- d) d = - (PI / 4).
Proof.
  intros Hd. unfold JS.Math_atan2. repeat split.
  - destruct (Rlt_dec 0 d); [|lra].
    replace (d / d) with 1 by (field; lra). apply atan_1.
  - destruct (Rlt_dec 0 (- d)); [lra|]. destruct (Rlt_dec (- d) 0); [|lra].
    destruct (Rle_dec 0 d); [|lra].
    replace (d / - d) with (-1) by (field; lra). rewrite atan_m1. lra.
  - destruct (Rlt_dec 0 (- d)); [lra|]. destruct (Rlt_dec (- d) 0); [|lra].
    destruct (Rle_dec 0 (- d)); [lra|].
    replace (- d / - d) with 1 by (field; lra). rewrite atan_1. lra.
  - destruct (Rlt_dec 0 d); [|lra].
    replace (- d / d) with (-1) by (field; lra). apply atan_m1.
Qed.

Lemma centerDistanceOf_ge (x y : R) :
  Rabs x <= Dpad.centerDistanceOf x y.
Proof.
  pose proof (Math_hypot_nonneg x y) as Hn.
  pose proof (Math_hypot_sqr x y) as Hs.
  change (JS.Math_hypot x y) with (Dpad.centerDistanceOf x y) in *.
  apply Rabs_le. split; nra.
Qed.

(** The direction the dpad computes for the offset [(x, y)]. *)
Lemma classify_at (x y reg a : R) (d : Dpad.direction) :
  Dpad.angleOf x y = a ->
  Dpad.centerDistanceOf x y > reg ->
  (forall cd, cd > reg -> Dpad.classify a cd reg = d) ->
  Dpad.classify (Dpad.angleOf x y) (Dpad.centerDistanceOf x y) reg = d.
Proof. intros -> Hcd H. now apply H. Qed.

(** Outside the dead zone, a pointer straight to the right of the center,
    above it, to the left or below gives [right], [up], [left] and
    [down], and a pointer on a diagonal gives the diagonal direction; up
    is towards smaller [clientY]. *)
Theorem dpad_axes_and_diagonals :
  forall d reg : R,
    0 < d -> reg < d ->
    let dir x y :=
      Dpad.classify (Dpad.angleOf x y) (Dpad.centerDistanceOf x y) reg in
    dir d 0 = Dpad.right
    /\ dir d (- d) = Dpad.up_right
    /\ dir 0 (- d) = Dpad.up
    /\ dir (- d) (- d) = Dpad.up_left
    /\ dir (- d) 0 = Dpad.left
    /\ dir (- d) d = Dpad.down_left
    /\ dir 0 d = Dpad.down
    /\ dir d d = Dpad.down_right.
Proof.
  intros d reg Hd Hreg dir.
  destruct (Math_atan2_axes d Hd) as [A0 [A90 [A180 Am90]]].
  destruct (Math_atan2_diagonals d Hd) as [A45 [A135 [Am135 Am45]]].
  assert (Hcd : forall x y, Rabs x = d \/ Rabs y = d ->
                  Dpad.centerDistanceOf x y > reg).
  { intros x y [H|H].
    - pose proof (centerDistanceOf_ge x y). lra.
    - pose proof (centerDistanceOf_ge y x) as Hy.
      replace (Dpad.centerDistanceOf y x) with (Dpad.centerDistanceOf x y)
        in Hy by (unfold Dpad.centerDistanceOf; f_equal; ring).
      lra. }
  assert (Hpos : Rabs d = d) by (apply Rabs_right; lra).
  assert (Hneg : Rabs (- d) = d) by (rewrite Rabs_Ropp; exact Hpos).
  unfold dir.
  repeat split.
  - apply (classify_at _ _ _ 0); [|now apply Hcd; left|].
    + apply angleOf_value. replace (- 0) with 0 by ring. rewrite A0. lra.
    + intros cd Hc. unfold Dpad.classify. now js_compare.
  - apply (classify_at _ _ _ 45); [|now apply Hcd; left|].
    + apply angleOf_value. rewrite Ropp_involutive, A45. lra.
    + intros cd Hc. unfold Dpad.classify. now js_compare.
  - apply (classify_at _ _ _ 90); [|now apply Hcd; right|].
    + apply angleOf_value. rewrite Ropp_involutive, A90. lra.
    + intros cd Hc. unfold Dpad.classify. now js_compare.
  - apply (classify_at _ _ _ 135); [|now apply Hcd; left|].
    + apply angleOf_value. rewrite Ropp_involutive, A135. lra.
    + intros cd Hc. unfold Dpad.classify. now js_compare.
  - apply (classify_at _ _ _ 180); [|now apply Hcd; left|].
    + apply angleOf_value. replace (- 0) with 0 by ring. rewrite A180. lra.
    + intros cd Hc. unfold Dpad.classify. now js_compare.
  - apply (classify_at _ _ _ (-135)); [|now apply Hcd; left|].
    + apply angleOf_value. rewrite Am135. lra.
    + intros cd Hc. unfold Dpad.classify. now js_compare.
  - apply (classify_at _ _ _ (-90)); [|now apply Hcd; right|].
    + apply angleOf_value. rewrite Am90. lra.
    + intros cd Hc. unfold Dpad.classify. now js_compare.
  - apply (classify_at _ _ _ (-45)); [|now apply Hcd; left|].
    + apply angleOf_value. rewrite Am45. lra.
    + intros cd Hc. unfold Dpad.classify. now js_compare.
Qed.

(** Offsets of 40 with a register distance of 12.5. *)
Lemma dpad_axes_and_diagonals_witness :
  let dir x y :=
    Dpad.classify (Dpad.angleOf x y) (Dpad.centerDistanceOf x y) 12.5 in
  (0 < 40 /\ 12.5 < 40)
  /\ dir 40 0 = Dpad.right
  /\ dir 40 (- 40) = Dpad.up_right
  /\ dir 0 (- 40) = Dpad.up
  /\ dir (- 40) (- 40) = Dpad.up_left
  /\ dir (- 40) 0 = Dpad.left
  /\ dir (- 40) 40 = Dpad.down_left
  /\ dir 0 40 = Dpad.down
  /\ dir 40 40 = Dpad.down_right.
Proof.
  intros dir.
  assert (H : 0 < 40 /\ 12.5 < 40) by lra.
  split; [exact H|].
  apply (dpad_axes_and_diagonals 40 12.5 (proj1 H) (proj2 H)).
Defined.

Lemma Math_atan2_scale (k y x : R) :
  0 < k -> JS.Math_atan2 (k * y) (k * x) = JS.Math_atan2 y x.
Proof.
  intros Hk. unfold JS.Math_atan2.
  assert (Hx : 0 < k * x <-> 0 < x) by (split; nra).
  assert (Hx' : k * x < 0 <-> x < 0) by (split; nra).
  assert (Hy : 0 < k * y <-> 0 < y) by (split; nra).
  assert (Hy' : k * y < 0 <-> y < 0) by (split; nra).
  assert (Hy0 : 0 <= k * y <-> 0 <= y) by (split; nra).
  destruct (Rlt_dec 0 (k * x)), (Rlt_dec 0 x); try tauto.
  - f_equal. field. lra.
  - destruct (Rlt_dec (k * x) 0), (Rlt_dec x 0); try tauto.
    + destruct (Rle_dec 0 (k * y)), (Rle_dec 0 y); try tauto;
        do 2 f_equal; field; lra.
    + destruct (Rlt_dec 0 (k * y)), (Rlt_dec 0 y); try tauto.
      destruct (Rlt_dec (k * y) 0), (Rlt_dec y 0); tauto.
Qed.

(** Outside the dead zone the direction depends on the ray from the
    center only, not on how far along it the pointer is: an offset and
    the same offset stretched by a positive factor give the same
    direction when both are outside the dead zone. *)
Theorem dpad_direction_of_ray :
  forall k x y reg : R,
    0 < k ->
    Dpad.centerDistanceOf x y > reg ->
    Dpad.centerDistanceOf (k * x) (k * y) > reg ->
    Dpad.angleOf (k * x) (k * y) = Dpad.angleOf x y
    /\ Dpad.classify (Dpad.angleOf (k * x) (k * y))
         (Dpad.centerDistanceOf (k * x) (k * y)) reg
       = Dpad.classify (Dpad.angleOf x y) (Dpad.centerDistanceOf x y) reg.
Proof.
  intros k x y reg Hk H1 H2.
  assert (Ha : Dpad.angleOf (k * x) (k * y) = Dpad.angleOf x y).
  { unfold Dpad.angleOf.
    replace (- (k * y)) with (k * - y) by ring.
    now rewrite Math_atan2_scale. }
  split; [exact Ha|]. rewrite Ha. unfold Dpad.classify.
  now rewrite (proj2 (gt_true_iff _ _) H1), (proj2 (gt_true_iff _ _) H2).
Qed.

(** The offset (30, 40), of length 50, and twice that offset, with a
    register distance of 12.5. *)
Lemma dpad_direction_of_ray_witness :
  (0 < 2
   /\ Dpad.centerDistanceOf 30 40 > 12.5
   /\ Dpad.centerDistanceOf (2 * 30) (2 * 40) > 12.5)
  /\ Dpad.angleOf (2 * 30) (2 * 40) = Dpad.angleOf 30 40
  /\ Dpad.classify (Dpad.angleOf (2 * 30) (2 * 40))
       (Dpad.centerDistanceOf (2 * 30) (2 * 40)) 12.5
     = Dpad.classify (Dpad.angleOf 30 40) (Dpad.centerDistanceOf 30 40) 12.5.
Proof.
  assert (H1 : Dpad.centerDistanceOf 30 40 > 12.5)
    by (rewrite (centerDistanceOf_eq _ _ 50); lra).
  assert (H2 : Dpad.centerDistanceOf (2 * 30) (2 * 40) > 12.5)
    by (rewrite (centerDistanceOf_eq _ _ 100); lra).
  assert (Hk : 0 < 2) by lra.
  split; [repeat split; assumption|].
  apply (dpad_direction_of_ray 2 30 40 12.5 Hk H1 H2).
Defined.

(** ** Dpad: the arms shown pressed *)

Section DpadArms.

Import String.
Local Open Scope string_scope.

Lemma dpad_view_paths (l : list (string * string)) :
  map fst l = DpadView.pathNames ->
  exists a b c d : string,
    l = [("up", a); ("right", b);
         ("down", c); ("left", d)].
Proof.
  unfold DpadView.pathNames. intros H.
  destruct l as [|[n1 a] [|[n2 b] [|[n3 c] [|[n4 d] [|]]]]];
    try discriminate H.
  cbn in H. injection H as -> -> -> ->. now exists a, b, c, d.
Qed.

(** What [updateDpadUI] leaves in [basePaths], whatever the fills were:
    every arm in the base colour for [center], the one arm in the pressed
    colour for a direction along an axis, and for a diagonal its two arms
    in the pressed colour and the other two in the base colour. *)
Theorem dpad_arms_table :
  forall (s : Dpad.DpadController) (base pressed a b c d : string),
    let v :=
      DpadView.mkView s base pressed
        [("up", a); ("right", b); ("down", c); ("left", d)] in
    DpadView.basePaths (DpadView.updateDpadUI v) =
    match Dpad.currentDirection s with
    | Dpad.center =>
        [("up", base); ("right", base); ("down", base); ("left", base)]
    | Dpad.up =>
        [("up", pressed); ("right", base); ("down", base); ("left", base)]
    | Dpad.down =>
        [("up", base); ("right", base); ("down", pressed); ("left", base)]
    | Dpad.left =>
        [("up", base); ("right", base); ("down", base); ("left", pressed)]
    | Dpad.right =>
        [("up", base); ("right", pressed); ("down", base); ("left", base)]
    | Dpad.up_right =>
        [("up", pressed); ("right", pressed); ("down", base); ("left", base)]
    | Dpad.down_right =>
        [("up", base); ("right", pressed); ("down", pressed); ("left", base)]
    | Dpad.up_left =>
        [("up", pressed); ("right", base); ("down", base); ("left", pressed)]
    | Dpad.down_left =>
        [("up", base); ("right", base); ("down", pressed); ("left", pressed)]
    end
    /\ DpadView.ctl (DpadView.updateDpadUI v) = s
    /\ DpadView.basePaths (DpadView.resetDpad v) =
       [("up", base); ("right", base); ("down", base); ("left", base)].
Proof.
  intros s base pressed a b c d v. split; [|split; reflexivity].
  unfold DpadView.updateDpadUI, v.
  cbn [DpadView.set_basePaths DpadView.basePaths DpadView.ctl
       DpadView.colorBase DpadView.colorPressed].
  destruct (Dpad.currentDirection s); reflexivity.
Qed.

End DpadArms.

Lemma dpad_view_shown_names (v : DpadView.View) :
  map fst (DpadView.shown v) = DpadView.pathNames.
Proof. unfold DpadView.shown. rewrite map_map. cbn. reflexivity. Qed.

Lemma dpad_view_update (v : DpadView.View) :
  map fst (DpadView.basePaths v) = DpadView.pathNames ->
  DpadView.basePaths (DpadView.updateDpadUI v) = DpadView.shown v.
Proof.
  intros H. destruct (dpad_view_paths _ H) as [a [b [c [d Hl]]]].
  unfold DpadView.updateDpadUI, DpadView.shown. cbn [DpadView.set_basePaths
    DpadView.basePaths]. rewrite Hl. cbn [map DpadView.pathNames].
  repeat match goal with
         | |- (_ :: _) = (_ :: _) => f_equal
         end;
    try reflexivity; now destruct (DpadView.includes _ _).
Qed.

Lemma dpad_view_reset (v : DpadView.View) :
  map fst (DpadView.basePaths v) = DpadView.pathNames ->
  DpadView.basePaths (DpadView.resetDpad v) =
  map (fun direction => (direction, DpadView.colorBase v)) DpadView.pathNames.
Proof.
  intros H. destruct (dpad_view_paths _ H) as [a [b [c [d Hl]]]].
  unfold DpadView.resetDpad. cbn [DpadView.set_basePaths DpadView.basePaths].
  now rewrite Hl.
Qed.

Lemma dpad_view_shown_center (v : DpadView.View) :
  Dpad.currentDirection (DpadView.ctl v) = Dpad.center ->
  DpadView.shown v =
  map (fun direction => (direction, DpadView.colorBase v)) DpadView.pathNames.
Proof. intros H. unfold DpadView.shown. now rewrite H. Qed.

Lemma dpad_view_move (e : Dom.PointerEvent) (v v' : DpadView.View)
  (out : list Dpad.Callback) :
  DpadView.basePaths v = DpadView.shown v ->
  DpadView.onDpadMove e v = Some (v', out) ->
  DpadView.basePaths v' = DpadView.shown v'
  /\ Dpad.onDpadMove e (DpadView.ctl v) = Some (DpadView.ctl v', out).
Proof.
  intros Hinv. unfold DpadView.onDpadMove, Dpad.onDpadMove. cbv zeta.
  destruct (negb (Dpad.isPressed (DpadView.ctl v))).
  - intros H. injection H as <- <-. now split.
  - destruct (Dpad.baseRect (DpadView.ctl v)) as [rect|]; [|discriminate].
    destruct (Dpad.direction_ne _ _); intros H; injection H as <- <-.
    + split; [|reflexivity]. rewrite dpad_view_update.
      * reflexivity.
      * cbn [DpadView.set_ctl DpadView.basePaths]. rewrite Hinv.
        apply dpad_view_shown_names.
    + now split.
Qed.

Lemma dpad_view_move_raises (e : Dom.PointerEvent) (v : DpadView.View) :
  DpadView.onDpadMove e v = None ->
  Dpad.onDpadMove e (DpadView.ctl v) = None.
Proof.
  unfold DpadView.onDpadMove, Dpad.onDpadMove. cbv zeta.
  destruct (negb (Dpad.isPressed (DpadView.ctl v))); [discriminate|].
  destruct (Dpad.baseRect (DpadView.ctl v)); [|reflexivity].
  destruct (Dpad.direction_ne _ _); discriminate.
Qed.

Lemma dpad_view_up (v : DpadView.View) :
  DpadView.basePaths v = DpadView.shown v ->
  DpadView.basePaths (fst (DpadView.onDpadUp v))
    = DpadView.shown (fst (DpadView.onDpadUp v))
  /\ Dpad.onDpadUp (DpadView.ctl v) =
     (DpadView.ctl (fst (DpadView.onDpadUp v)), snd (DpadView.onDpadUp v)).
Proof.
  intros Hinv. split; [|reflexivity].
  unfold DpadView.onDpadUp. cbv zeta. cbn [fst].
  rewrite dpad_view_shown_center by reflexivity.
  cbn [DpadView.set_ctl DpadView.basePaths DpadView.colorBase].
  rewrite dpad_view_reset.
  - reflexivity.
  - cbn [DpadView.set_ctl DpadView.basePaths]. rewrite Hinv.
    apply dpad_view_shown_names.
Qed.

Lemma dpad_view_dispatch (ev : DpadEvents.Event) (v : DpadView.View) :
  DpadView.basePaths v = DpadView.shown v ->
  match DpadView.dispatch ev v with
  | Some (v', out) =>
      DpadView.basePaths v' = DpadView.shown v'
      /\ DpadEvents.dispatch ev (DpadView.ctl v) = Some (DpadView.ctl v', out)
  | None => DpadEvents.dispatch ev (DpadView.ctl v) = None
  end.
Proof.
  intros Hinv.
  assert (Hmove : forall e v0,
            DpadView.basePaths v0 = DpadView.shown v0 ->
            match DpadView.onDpadMove e v0 with
            | Some (v', out) =>
                DpadView.basePaths v' = DpadView.shown v'
                /\ Dpad.onDpadMove e (DpadView.ctl v0)
                   = Some (DpadView.ctl v', out)
            | None => Dpad.onDpadMove e (DpadView.ctl v0) = None
            end).
  { intros e v0 H0. destruct (DpadView.onDpadMove e v0) as [[v' out]|] eqn:Hm.
    - now apply dpad_view_move.
    - now apply dpad_view_move_raises. }
  destruct ev as [rect e|e| |rect [|t ts]| ];
    cbn [DpadView.dispatch DpadEvents.dispatch DpadView.onDpadDown
         Dpad.onDpadDown].
  - apply (Hmove e (DpadView.set_ctl _ v)). exact Hinv.
  - now apply Hmove.
  - destruct (dpad_view_up v Hinv) as [H1 H2].
    destruct (DpadView.onDpadUp v) as [v' out]. cbn [fst snd] in *.
    split; [exact H1|now rewrite H2].
  - now split.
  - apply (Hmove t (DpadView.set_ctl _ v)). exact Hinv.
  - destruct (dpad_view_up v Hinv) as [H1 H2].
    destruct (DpadView.onDpadUp v) as [v' out]. cbn [fst snd] in *.
    split; [exact H1|now rewrite H2].
Qed.

Lemma dpad_view_run (evs : list DpadEvents.Event) :
  forall v : DpadView.View,
    DpadView.basePaths v = DpadView.shown v ->
    DpadView.basePaths (fst (DpadView.run evs v))
      = DpadView.shown (fst (DpadView.run evs v))
    /\ DpadEvents.run evs (DpadView.ctl v) =
       (DpadView.ctl (fst (DpadView.run evs v)), snd (DpadView.run evs v)).
Proof.
  induction evs as [|ev evs IH]; intros v Hinv; [now split|].
  cbn [DpadView.run DpadEvents.run].
  pose proof (dpad_view_dispatch ev v Hinv) as Hd.
  destruct (DpadView.dispatch ev v) as [[v1 out1]|].
  - destruct Hd as [Hinv1 Hd]. rewrite Hd.
    destruct (IH v1 Hinv1) as [H1 H2]. rewrite H2.
    destruct (DpadView.run evs v1) as [v2 out2]. now split.
  - rewrite Hd. now apply IH.
Qed.

(** The arms always show the direction: whatever events a dpad has
    handled since it was drawn, each arm is in the pressed colour when
    the string of the current direction includes its name and in the base
    colour otherwise; all are in the base colour while the dpad is not
    pressed.  Drawing changes nothing of what the dpad computes and
    reports. *)
Theorem dpad_arms_show_direction :
  forall (evs : list DpadEvents.Event) (options : Dpad.DpadOptions)
         (base pressed : String.string),
    let v := fst (DpadView.run evs (DpadView.new options base pressed)) in
    DpadView.basePaths v = DpadView.shown v
    /\ (Dpad.isPressed (DpadView.ctl v) = false ->
        DpadView.basePaths v =
        map (fun direction => (direction, base)) DpadView.pathNames)
    /\ DpadEvents.run evs (Dpad.new options) =
       (DpadView.ctl v,
        snd (DpadView.run evs (DpadView.new options base pressed))).
Proof.
  intros evs options base pressed v.
  destruct (dpad_view_run evs (DpadView.new options base pressed))
    as [Hshown Hrun]; [reflexivity|].
  fold v in Hshown, Hrun. split; [exact Hshown|]. split; [|exact Hrun].
  intros Hidle.
  destruct (dpad_never_raises_wf evs options) as [_ [_ Hc]].
  change (Dpad.new options)
    with (DpadView.ctl (DpadView.new options base pressed)) in Hc.
  rewrite Hrun in Hc. cbn [fst] in Hc.
  destruct (Hc Hidle) as [Hcenter _].
  rewrite Hshown, (dpad_view_shown_center v Hcenter).
  assert (Hbase : forall evs v0,
            DpadView.colorBase (fst (DpadView.run evs v0))
            = DpadView.colorBase v0).
  { clear. induction evs as [|ev evs IH]; intros v0; [reflexivity|].
    cbn [DpadView.run].
    destruct (DpadView.dispatch ev v0) as [[v1 out1]|] eqn:Hd.
    - specialize (IH v1). destruct (DpadView.run evs v1) as [v2 out2].
      cbn [fst] in *. rewrite IH. clear IH.
      destruct ev as [rect e|e| |rect [|t ts]| ];
        cbn [DpadView.dispatch DpadView.onDpadDown] in Hd;
        try (injection Hd as <- _; reflexivity);
        unfold DpadView.onDpadMove in Hd; cbv zeta in Hd;
        repeat match type of Hd with
          | context [if ?c then _ else _] => destruct c
          | context [match ?c with Some _ => _ | None => _ end] => destruct c
          end;
        try discriminate Hd; injection Hd as <- _; reflexivity.
    - apply IH. }
  unfold v. now rewrite Hbase.
Qed.

(** ** Slider: the value of a position *)

Lemma Math_round_le (x y : R) :
  x <= y -> JS.Math_round x <= JS.Math_round y.
Proof.
  intros H. unfold JS.Math_round. apply IZR_le, Zfloor_le. lra.
Qed.

Lemma Math_clamp_le (x y : R) :
  x <= y ->
  JS.Math_max 0 (JS.Math_min 100 x) <= JS.Math_max 0 (JS.Math_min 100 y).
Proof.
  intros H. unfold JS.Math_max, JS.Math_min, Rmax, Rmin.
  repeat destruct (Rle_dec _ _); lra.
Qed.

Lemma Math_clamp_range (x : R) :
  0 <= JS.Math_max 0 (JS.Math_min 100 x) <= 100.
Proof.
  unfold JS.Math_max, JS.Math_min, Rmax, Rmin.
  repeat destruct (Rle_dec _ _); lra.
Qed.

Lemma Math_clamp_round_range (x : R) :
  exists k : Z,
    (0 <= k <= 100)%Z
    /\ JS.Math_round (JS.Math_max 0 (JS.Math_min 100 x)) = IZR k.
Proof.
  pose proof (Math_clamp_range x) as [Hlo Hhi].
  set (c := JS.Math_max 0 (JS.Math_min 100 x)) in *.
  exists (Zfloor (c + / 2)). split; [|reflexivity]. split.
  - apply Zfloor_lub. lra.
  - pose proof (Zfloor_bound (c + / 2)) as [Hb _].
    apply Z.lt_succ_r, lt_IZR. rewrite succ_IZR. lra.
Qed.

Lemma slider_valueOf_range (d : Slider.SliderOrientation)
  (rect : Dom.DOMRect) (e : Dom.PointerEvent) :
  exists k : Z, (0 <= k <= 100)%Z /\ Slider.valueOf d rect e = IZR k.
Proof. unfold Slider.valueOf. cbv zeta. apply Math_clamp_round_range. Qed.

Lemma Math_clamp_round_hi (v : R) :
  100 <= v -> JS.Math_round (JS.Math_max 0 (JS.Math_min 100 v)) = 100.
Proof.
  intros H. unfold JS.Math_min, JS.Math_max.
  rewrite Rmin_left, Rmax_right by lra. apply (Math_round_IZR 100).
Qed.

Lemma Math_clamp_round_lo (v : R) :
  v <= 0 -> JS.Math_round (JS.Math_max 0 (JS.Math_min 100 v)) = 0.
Proof.
  intros H. unfold JS.Math_min, JS.Math_max.
  rewrite Rmin_right, Rmax_left by lra. apply (Math_round_IZR 0).
Qed.

Lemma Math_clamp_round_mid (v : R) :
  0 <= v <= 100 ->
  v - / 2 < JS.Math_round (JS.Math_max 0 (JS.Math_min 100 v)) <= v + / 2.
Proof.
  intros H. unfold JS.Math_min, JS.Math_max.
  rewrite Rmin_right, Rmax_right by lra. apply Math_round_bound.
Qed.

Lemma Math_clamp_round_le (v w : R) :
  v <= w ->
  JS.Math_round (JS.Math_max 0 (JS.Math_min 100 v))
  <= JS.Math_round (JS.Math_max 0 (JS.Math_min 100 w)).
Proof. intros H. now apply Math_round_le, Math_clamp_le. Qed.

(** Division by a positive extent keeps the order, and takes the extent
    itself to 1. *)
Lemma Rdiv_extent (h a b : R) :
  0 < h ->
  (a <= b -> a / h <= b / h) /\ 0 / h = 0 /\ h / h = 1.
Proof.
  intros Hh. split; [|split]; try (field; lra).
  intros Hab. apply (Rmult_le_reg_r h); [exact Hh|].
  replace (a / h * h) with a by (field; lra).
  replace (b / h * h) with b by (field; lra). exact Hab.
Qed.

Lemma fp_setSliderValue_value (A : Fp.Arith) (rect : Dom.DOMRect)
  (e : Dom.PointerEvent) (s : Slider.RetrackableSlider) :
  Slider.valuePercent (fst (Fp.setSliderValue A rect e s)) =
  Fp.sliderValueOf A (Slider.direction s) rect e.
Proof.
  unfold Fp.setSliderValue. cbv zeta.
  cbn [Slider.updateContainerRectangle Slider.direction Slider.valuePercent].
  destruct (Slider.valuePercent s !== _) eqn:Hv; cbn.
  - reflexivity.
  - now apply strict_ne_false_iff in Hv.
Qed.

(** Without rounding the handler is the one of the definitions above. *)
Lemma fp_setSliderValue_exact (rect : Dom.DOMRect) (e : Dom.PointerEvent)
  (s : Slider.RetrackableSlider) :
  Fp.setSliderValue Fp.exact rect e s = Slider.setSliderValue rect e s.
Proof. reflexivity. Qed.

Lemma fp_exact_rounds : Fp.Rounds Fp.exact.
Proof. split; cbn; intros; auto. Qed.

(** In the arithmetic of the doubles, on a rectangle with a positive
    height: the value [setSliderValue] stores for a vertical slider is
    100 for a pointer at the top edge or above it and 0 for a pointer at
    the bottom edge or below it; it never grows when the pointer goes
    down; it is the position the handler computes, clamped and rounded
    to the nearest whole number; and it is a whole number from 0 to
    100. *)
Theorem slider_vertical_value :
  forall (A : Fp.Arith) (rect : Dom.DOMRect) (e e' : Dom.PointerEvent)
         (s : Slider.RetrackableSlider),
    Fp.Rounds A ->
    Fp.rnd A (Dom.height rect) = Dom.height rect ->
    0 < Dom.height rect ->
    Slider.direction s = Slider.vertical ->
    let value e := Slider.valuePercent (fst (Fp.setSliderValue A rect e s)) in
    let position :=
      Fp.sub A 100
        (Fp.mul A (Fp.div A (Fp.sub A (Dom.clientY e) (Dom.top rect))
                            (Dom.height rect)) 100) in
    (Dom.clientY e <= Dom.top rect -> value e = 100)
    /\ (Dom.top rect + Dom.height rect <= Dom.clientY e -> value e = 0)
    /\ (Dom.clientY e <= Dom.clientY e' -> value e' <= value e)
    /\ (0 <= position <= 100 ->
        position - / 2 < value e <= position + / 2)
    /\ exists k : Z, (0 <= k <= 100)%Z /\ value e = IZR k.
Proof.
  intros A rect e e' s [Hle H0 H1 H100] Hh Hpos Hdir value position.
  set (h := Dom.height rect) in *. set (t := Dom.top rect) in *.
  assert (Hq : forall a b, a <= b -> a / h <= b / h)
    by (intros a b; apply (Rdiv_extent h a b Hpos)).
  destruct (Rdiv_extent h 0 0 Hpos) as [_ [Hq0 Hq1]].
  assert (Hval : forall ev, value ev =
            JS.Math_round (JS.Math_max 0 (JS.Math_min 100
              (Fp.sub A 100
                 (Fp.mul A (Fp.div A (Fp.sub A (Dom.clientY ev) t) h) 100))))).
  { intros ev. unfold value. rewrite fp_setSliderValue_value, Hdir.
    reflexivity. }
  assert (Hmono : forall y y', y <= y' ->
            Fp.sub A 100 (Fp.mul A (Fp.div A (Fp.sub A y' t) h) 100)
            <= Fp.sub A 100 (Fp.mul A (Fp.div A (Fp.sub A y t) h) 100)).
  { intros y y' Hy. unfold Fp.sub, Fp.mul, Fp.div.
    apply Hle.
    assert (Ha : Fp.rnd A (y - t) <= Fp.rnd A (y' - t)) by (apply Hle; lra).
    assert (Hb : Fp.rnd A (Fp.rnd A (y - t) / h)
                 <= Fp.rnd A (Fp.rnd A (y' - t) / h))
      by (apply Hle, Hq, Ha).
    assert (Hc : Fp.rnd A (Fp.rnd A (Fp.rnd A (y - t) / h) * 100)
                 <= Fp.rnd A (Fp.rnd A (Fp.rnd A (y' - t) / h) * 100))
      by (apply Hle; lra).
    lra. }
  split; [|split; [|split; [|split]]].
  - intros Hy. rewrite Hval. apply Math_clamp_round_hi.
    pose proof (Hmono (Dom.clientY e) t Hy) as Hm.
    assert (Ht : Fp.sub A 100 (Fp.mul A (Fp.div A (Fp.sub A t t) h) 100)
                 = 100).
    { unfold Fp.sub, Fp.mul, Fp.div.
      replace (t - t) with 0 by ring. rewrite H0, Hq0, H0.
      replace (0 * 100) with 0 by ring. rewrite H0.
      replace (100 - 0) with 100 by ring. exact H100. }
    lra.
  - intros Hy. rewrite Hval. apply Math_clamp_round_lo.
    unfold Fp.sub, Fp.mul, Fp.div.
    assert (Ha : h <= Fp.rnd A (Dom.clientY e - t))
      by (rewrite <- Hh at 1; apply Hle; lra).
    assert (Hb : 1 <= Fp.rnd A (Fp.rnd A (Dom.clientY e - t) / h)).
    { rewrite <- H1 at 1. apply Hle. rewrite <- Hq1. now apply Hq. }
    assert (Hc : 100 <= Fp.rnd A
                   (Fp.rnd A (Fp.rnd A (Dom.clientY e - t) / h) * 100))
      by (rewrite <- H100 at 1; apply Hle; lra).
    rewrite <- H0. apply Hle. lra.
  - intros Hy. rewrite !Hval. apply Math_clamp_round_le. now apply Hmono.
  - intros Hp. rewrite Hval. now apply Math_clamp_round_mid.
  - rewrite Hval. apply Math_clamp_round_range.
Qed.

(** A rectangle 100 high with its top at 20, and pointers at heights 50
    and 70, in the arithmetic without rounding. *)
Lemma slider_vertical_value_witness :
  let A := Fp.exact in
  let rect := Dom.mkRect 10 20 30 100 in
  let e := Dom.mkPointer 1 15 50 in
  let e' := Dom.mkPointer 1 15 70 in
  let s := Slider.mkSlider Slider.vertical None true 0 in
  let value e := Slider.valuePercent (fst (Fp.setSliderValue A rect e s)) in
  let position :=
    Fp.sub A 100
      (Fp.mul A (Fp.div A (Fp.sub A (Dom.clientY e) (Dom.top rect))
                          (Dom.height rect)) 100) in
  (Fp.Rounds A /\ Fp.rnd A (Dom.height rect) = Dom.height rect
   /\ 0 < Dom.height rect /\ Slider.direction s = Slider.vertical)
  /\ (Dom.clientY e <= Dom.top rect -> value e = 100)
  /\ (Dom.top rect + Dom.height rect <= Dom.clientY e -> value e = 0)
  /\ (Dom.clientY e <= Dom.clientY e' -> value e' <= value e)
  /\ (0 <= position <= 100 ->
      position - / 2 < value e <= position + / 2)
  /\ exists k : Z, (0 <= k <= 100)%Z /\ value e = IZR k.
Proof.
  intros A rect e e' s.
  assert (Hpos : 0 < Dom.height rect) by (cbn; lra).
  split; [repeat split; [apply fp_exact_rounds|exact Hpos]|].
  apply (slider_vertical_value A rect e e' s fp_exact_rounds
           eq_refl Hpos eq_refl).
Defined.

(** In the arithmetic of the doubles, on a rectangle with a positive
    width: the value [setSliderValue] stores for a horizontal slider is 0
    for a pointer at the left edge or left of it and 100 for a pointer at
    the right edge or right of it; it never shrinks when the pointer goes
    right; it is the position the handler computes, clamped and rounded
    to the nearest whole number; and it is a whole number from 0 to
    100. *)
Theorem slider_horizontal_value :
  forall (A : Fp.Arith) (rect : Dom.DOMRect) (e e' : Dom.PointerEvent)
         (s : Slider.RetrackableSlider),
    Fp.Rounds A ->
    Fp.rnd A (Dom.width rect) = Dom.width rect ->
    0 < Dom.width rect ->
    Slider.direction s = Slider.horizontal ->
    let value e := Slider.valuePercent (fst (Fp.setSliderValue A rect e s)) in
    let position :=
      Fp.mul A (Fp.div A (Fp.sub A (Dom.clientX e) (Dom.left rect))
                         (Dom.width rect)) 100 in
    (Dom.clientX e <= Dom.left rect -> value e = 0)
    /\ (Dom.left rect + Dom.width rect <= Dom.clientX e -> value e = 100)
    /\ (Dom.clientX e <= Dom.clientX e' -> value e <= value e')
    /\ (0 <= position <= 100 ->
        position - / 2 < value e <= position + / 2)
    /\ exists k : Z, (0 <= k <= 100)%Z /\ value e = IZR k.
Proof.
  intros A rect e e' s [Hle H0 H1 H100] Hw Hpos Hdir value position.
  set (w := Dom.width rect) in *. set (l := Dom.left rect) in *.
  assert (Hq : forall a b, a <= b -> a / w <= b / w)
    by (intros a b; apply (Rdiv_extent w a b Hpos)).
  destruct (Rdiv_extent w 0 0 Hpos) as [_ [Hq0 Hq1]].
  assert (Hval : forall ev, value ev =
            JS.Math_round (JS.Math_max 0 (JS.Math_min 100
              (Fp.mul A (Fp.div A (Fp.sub A (Dom.clientX ev) l) w) 100)))).
  { intros ev. unfold value. rewrite fp_setSliderValue_value, Hdir.
    reflexivity. }
  assert (Hmono : forall x x', x <= x' ->
            Fp.mul A (Fp.div A (Fp.sub A x l) w) 100
            <= Fp.mul A (Fp.div A (Fp.sub A x' l) w) 100).
  { intros x x' Hx. unfold Fp.sub, Fp.mul, Fp.div.
    assert (Ha : Fp.rnd A (x - l) <= Fp.rnd A (x' - l)) by (apply Hle; lra).
    assert (Hb : Fp.rnd A (Fp.rnd A (x - l) / w)
                 <= Fp.rnd A (Fp.rnd A (x' - l) / w))
      by (apply Hle, Hq, Ha).
    apply Hle. lra. }
  split; [|split; [|split; [|split]]].
  - intros Hx. rewrite Hval. apply Math_clamp_round_lo.
    pose proof (Hmono (Dom.clientX e) l Hx) as Hm.
    assert (Hl : Fp.mul A (Fp.div A (Fp.sub A l l) w) 100 = 0).
    { unfold Fp.sub, Fp.mul, Fp.div.
      replace (l - l) with 0 by ring. rewrite H0, Hq0, H0.
      replace (0 * 100) with 0 by ring. exact H0. }
    lra.
  - intros Hx. rewrite Hval. apply Math_clamp_round_hi.
    unfold Fp.sub, Fp.mul, Fp.div.
    assert (Ha : w <= Fp.rnd A (Dom.clientX e - l))
      by (rewrite <- Hw at 1; apply Hle; lra).
    assert (Hb : 1 <= Fp.rnd A (Fp.rnd A (Dom.clientX e - l) / w)).
    { rewrite <- H1 at 1. apply Hle. rewrite <- Hq1. now apply Hq. }
    rewrite <- H100 at 1. apply Hle. lra.
  - intros Hx. rewrite !Hval. apply Math_clamp_round_le. now apply Hmono.
  - intros Hp. rewrite Hval. now apply Math_clamp_round_mid.
  - rewrite Hval. apply Math_clamp_round_range.
Qed.

(** A rectangle 200 wide with its left edge at 10, and pointers at 60 and
    110, in the arithmetic without rounding. *)
Lemma slider_horizontal_value_witness :
  let A := Fp.exact in
  let rect := Dom.mkRect 10 20 200 30 in
  let e := Dom.mkPointer 1 60 25 in
  let e' := Dom.mkPointer 1 110 25 in
  let s := Slider.mkSlider Slider.horizontal None true 0 in
  let value e := Slider.valuePercent (fst (Fp.setSliderValue A rect e s)) in
  let position :=
    Fp.mul A (Fp.div A (Fp.sub A (Dom.clientX e) (Dom.left rect))
                       (Dom.width rect)) 100 in
  (Fp.Rounds A /\ Fp.rnd A (Dom.width rect) = Dom.width rect
   /\ 0 < Dom.width rect /\ Slider.direction s = Slider.horizontal)
  /\ (Dom.clientX e <= Dom.left rect -> value e = 0)
  /\ (Dom.left rect + Dom.width rect <= Dom.clientX e -> value e = 100)
  /\ (Dom.clientX e <= Dom.clientX e' -> value e <= value e')
  /\ (0 <= position <= 100 ->
      position - / 2 < value e <= position + / 2)
  /\ exists k : Z, (0 <= k <= 100)%Z /\ value e = IZR k.
Proof.
  intros A rect e e' s.
  assert (Hpos : 0 < Dom.width rect) by (cbn; lra).
  split; [repeat split; [apply fp_exact_rounds|exact Hpos]|].
  apply (slider_horizontal_value A rect e e' s fp_exact_rounds
           eq_refl Hpos eq_refl).
Defined.

(** ** Slider: any run of events *)

Lemma slider_setSliderValue_eq (rect : Dom.DOMRect) (e : Dom.PointerEvent)
  (s : Slider.RetrackableSlider) :
  let value := Slider.valueOf (Slider.direction s) rect e in
  Slider.valuePercent (fst (Slider.setSliderValue rect e s)) = value
  /\ Slider.isPressed (fst (Slider.setSliderValue rect e s))
     = Slider.isPressed s
  /\ Slider.direction (fst (Slider.setSliderValue rect e s))
     = Slider.direction s
  /\ snd (Slider.setSliderValue rect e s) =
     (if Slider.valuePercent s !== value
      then [Slider.onSlideCallback value] else []).
Proof.
  intros value. unfold Slider.setSliderValue. cbv zeta.
  cbn [Slider.updateContainerRectangle Slider.direction Slider.valuePercent].
  fold value.
  destruct (Slider.valuePercent s !== value) eqn:Hv; cbn.
  - repeat split.
  - apply strict_ne_false_iff in Hv. repeat split. exact Hv.
Qed.

Lemma slider_onSliderUp_eq (e : Dom.PointerEvent)
  (s : Slider.RetrackableSlider) :
  Slider.valuePercent (fst (Slider.onSliderUp e s)) = 0
  /\ Slider.isPressed (fst (Slider.onSliderUp e s)) = false
  /\ Slider.direction (fst (Slider.onSliderUp e s)) = Slider.direction s
  /\ snd (Slider.onSliderUp e s) =
     (if Slider.valuePercent s !== 0 then [Slider.onReleaseCallback]
      else []).
Proof.
  unfold Slider.onSliderUp. cbv zeta.
  cbn [Slider.set_isPressed Slider.valuePercent].
  destruct (Slider.valuePercent s !== 0) eqn:Hv; cbn.
  - repeat split.
  - apply strict_ne_false_iff in Hv. repeat split. exact Hv.
Qed.

Lemma slider_run_cons (ev : SliderEvents.Event)
  (evs : list SliderEvents.Event) (s : Slider.RetrackableSlider) :
  SliderEvents.run (ev :: evs) s =
  (fst (SliderEvents.run evs (fst (SliderEvents.dispatch ev s))),
   snd (SliderEvents.dispatch ev s)
   ++ snd (SliderEvents.run evs (fst (SliderEvents.dispatch ev s)))).
Proof.
  simpl. destruct (SliderEvents.dispatch ev s) as [s1 out1]. simpl.
  now destruct (SliderEvents.run evs s1).
Qed.

(** What a handler of the slider leaves: the value it holds, and whether
    it is pressed. *)
Lemma slider_dispatch_eq (ev : SliderEvents.Event)
  (s : Slider.RetrackableSlider) :
  let s' := fst (SliderEvents.dispatch ev s) in
  (Slider.isPressed s' = false ->
   Slider.valuePercent s' = 0 \/
   (Slider.isPressed s = false /\ Slider.valuePercent s' = Slider.valuePercent s))
  /\ (Slider.valuePercent s' = Slider.valuePercent s
      \/ exists k : Z, (0 <= k <= 100)%Z /\ Slider.valuePercent s' = IZR k).
Proof.
  intros s'. unfold s'. clear s'.
  destruct ev as [e|rect e|rect e|e]; cbn [SliderEvents.dispatch].
  - destruct (slider_onSliderUp_eq e s) as [Hv _].
    split; [now left|]. right. exists 0%Z. split; [lia|exact Hv].
  - unfold Slider.onSliderDown.
    destruct (slider_setSliderValue_eq rect e (Slider.set_isPressed true s))
      as [Hv [Hp _]].
    split; [rewrite Hp; discriminate|]. right. rewrite Hv.
    apply slider_valueOf_range.
  - unfold Slider.onSliderMove.
    destruct (Slider.isPressed s) eqn:Hs; cbn [negb].
    + destruct (slider_setSliderValue_eq rect e s) as [Hv [Hp _]].
      split; [rewrite Hp, Hs; discriminate|]. right. rewrite Hv.
      apply slider_valueOf_range.
    + cbn [fst]. split; [now right|now left].
  - destruct (slider_onSliderUp_eq e s) as [Hv _].
    split; [now left|]. right. exists 0%Z. split; [lia|exact Hv].
Qed.

Lemma slider_run_invariant (evs : list SliderEvents.Event) :
  forall s : Slider.RetrackableSlider,
    (Slider.isPressed s = false -> Slider.valuePercent s = 0) ->
    (exists k : Z, (0 <= k <= 100)%Z /\ Slider.valuePercent s = IZR k) ->
    let s' := fst (SliderEvents.run evs s) in
    (Slider.isPressed s' = false -> Slider.valuePercent s' = 0)
    /\ exists k : Z, (0 <= k <= 100)%Z /\ Slider.valuePercent s' = IZR k.
Proof.
  induction evs as [|ev evs IH]; intros s Hidle Hrange; [now split|].
  rewrite slider_run_cons. cbn [fst].
  destruct (slider_dispatch_eq ev s) as [H1 H2].
  apply IH.
  - intros Hp. destruct (H1 Hp) as [H|[Hs H]]; [exact H|].
    rewrite H. now apply Hidle.
  - destruct H2 as [H|H]; [now rewrite H|exact H].
Qed.

(** The slider retracts: whatever events it has handled since it was
    made, its value is 0 whenever it is not pressed, and while the
    rectangles measured have a positive width and height its value is a
    whole number from 0 to 100. *)
Theorem slider_idle_reads_zero :
  forall (evs : list SliderEvents.Event)
         (opt_direction : option Slider.SliderOrientation),
    Forall SliderEvents.measurable evs ->
    let s := fst (SliderEvents.run evs (Slider.new opt_direction)) in
    (Slider.isPressed s = false -> Slider.valuePercent s = 0)
    /\ exists k : Z, (0 <= k <= 100)%Z /\ Slider.valuePercent s = IZR k.
Proof.
  intros evs opt_direction _.
  apply slider_run_invariant.
  - reflexivity.
  - exists 0%Z. split; [lia|reflexivity].
Qed.

(** A press, a move and a release on a rectangle of 10 by 100. *)
Lemma slider_idle_reads_zero_witness :
  let rect := Dom.mkRect 0 0 10 100 in
  let evs :=
    [ SliderEvents.pointerdown rect (Dom.mkPointer 1 5 30);
      SliderEvents.pointermove rect (Dom.mkPointer 1 5 60);
      SliderEvents.pointerup (Dom.mkPointer 1 5 60) ] in
  let s := fst (SliderEvents.run evs (Slider.new None)) in
  Forall SliderEvents.measurable evs
  /\ (Slider.isPressed s = false -> Slider.valuePercent s = 0)
  /\ exists k : Z, (0 <= k <= 100)%Z /\ Slider.valuePercent s = IZR k.
Proof.
  intros rect evs s.
  assert (H : Forall SliderEvents.measurable evs).
  { repeat constructor; cbn; lra. }
  split; [exact H|]. apply (slider_idle_reads_zero evs None H).
Defined.

Lemma slider_no_repeat_dispatch (ev : SliderEvents.Event)
  (s : Slider.RetrackableSlider) (out' : list Slider.Callback) :
  SliderEvents.no_repeat
    (Slider.valuePercent (fst (SliderEvents.dispatch ev s))) out' = true ->
  SliderEvents.no_repeat (Slider.valuePercent s)
    (snd (SliderEvents.dispatch ev s) ++ out') = true.
Proof.
  assert (Hset : forall rect e s0,
            Slider.valuePercent s0 = Slider.valuePercent s ->
            SliderEvents.no_repeat
              (Slider.valuePercent (fst (Slider.setSliderValue rect e s0)))
              out' = true ->
            SliderEvents.no_repeat (Slider.valuePercent s)
              (snd (Slider.setSliderValue rect e s0) ++ out') = true).
  { intros rect e s0 Hs0.
    destruct (slider_setSliderValue_eq rect e s0) as [Hv [_ [_ Hout]]].
    rewrite Hv, Hout, Hs0.
    destruct (Slider.valuePercent s !== _) eqn:Hne; cbn [app].
    - cbn [SliderEvents.no_repeat]. intros ->. now rewrite Hne.
    - apply strict_ne_false_iff in Hne. now rewrite <- Hne. }
  assert (Hup : forall e,
            SliderEvents.no_repeat
              (Slider.valuePercent (fst (Slider.onSliderUp e s))) out' = true ->
            SliderEvents.no_repeat (Slider.valuePercent s)
              (snd (Slider.onSliderUp e s) ++ out') = true).
  { intros e. destruct (slider_onSliderUp_eq e s) as [Hv [_ [_ Hout]]].
    rewrite Hv, Hout.
    destruct (Slider.valuePercent s !== 0) eqn:Hne; cbn [app].
    - now cbn [SliderEvents.no_repeat].
    - apply strict_ne_false_iff in Hne. now rewrite Hne. }
  destruct ev as [e|rect e|rect e|e]; cbn [SliderEvents.dispatch].
  - apply Hup.
  - unfold Slider.onSliderDown. now apply Hset.
  - unfold Slider.onSliderMove.
    destruct (negb (Slider.isPressed s)); [exact (fun H => H)|].
    now apply Hset.
  - apply Hup.
Qed.

(** While the rectangles measured have a positive width and height, the
    slider never invokes the slide callback with the value it holds:
    in any run of events, from any state, every slide callback reports a
    value other than the one reported before it, the value being 0 again
    after a release callback. *)
Theorem slider_slide_never_repeats :
  forall (evs : list SliderEvents.Event) (s : Slider.RetrackableSlider),
    Forall SliderEvents.measurable evs ->
    SliderEvents.no_repeat (Slider.valuePercent s)
      (snd (SliderEvents.run evs s)) = true.
Proof.
  intros evs s _. revert s.
  induction evs as [|ev evs IH]; intros s; [reflexivity|].
  rewrite slider_run_cons. cbn [snd].
  apply slider_no_repeat_dispatch, IH.
Qed.

(** A press and three moves, two of them to the same height. *)
Lemma slider_slide_never_repeats_witness :
  let rect := Dom.mkRect 0 0 10 100 in
  let evs :=
    [ SliderEvents.pointerdown rect (Dom.mkPointer 1 5 30);
      SliderEvents.pointermove rect (Dom.mkPointer 1 5 60);
      SliderEvents.pointermove rect (Dom.mkPointer 1 7 60);
      SliderEvents.pointermove rect (Dom.mkPointer 1 5 10) ] in
  Forall SliderEvents.measurable evs
  /\ SliderEvents.no_repeat (Slider.valuePercent (Slider.new None))
       (snd (SliderEvents.run evs (Slider.new None))) = true.
Proof.
  intros rect evs.
  assert (H : Forall SliderEvents.measurable evs).
  { repeat constructor; cbn; lra. }
  split; [exact H|].
  apply (slider_slide_never_repeats evs (Slider.new None) H).
Defined.

(** ** Dpad: the dead zone *)

Lemma classify_center_iff (a cd rd : R) :
  Dpad.classify a cd rd = Dpad.center <-> cd <= rd.
Proof.
  split; [|apply classify_dead_zone].
  intros Hc. destruct (Rle_lt_dec cd rd) as [Hle|Hgt]; [exact Hle|].
  destruct (Rle_lt_dec a (-157.5)) as [Ha|Ha].
  - rewrite classify_left in Hc by (try lra; now left). discriminate Hc.
  - destruct (Rle_lt_dec a 157.5) as [Hb|Hb].
    + assert (Hsec : in_sector a (Dpad.classify a cd rd))
        by (apply classify_in_sector; lra).
      rewrite Hc in Hsec. inversion Hsec.
    + rewrite classify_left in Hc by (try lra; now right). discriminate Hc.
Qed.

(** In the arithmetic of the doubles, a move of a pressed dpad leaves the
    direction [center] exactly when the distance the handler computes,
    the root of [dx * dx + dy * dy] for the offset [(dx, dy)] of the
    pointer from the center rotated back, is at most the register
    distance, the border included; farther away it leaves one of the
    eight other directions, whatever the angle. *)
Theorem dpad_center_iff_dead_zone :
  forall (A : Fp.Arith) (rect : Dom.DOMRect) (e : Dom.PointerEvent)
         (s : Dpad.DpadController),
    Dpad.isPressed s = true ->
    Dpad.baseRect s = Some rect ->
    let centerX := Fp.add A (Dom.left rect) (Fp.div A (Dom.width rect) 2) in
    let centerY := Fp.add A (Dom.top rect) (Fp.div A (Dom.height rect) 2) in
    let x0 := Fp.sub A (Dom.clientX e) centerX in
    let y0 := Fp.sub A (Dom.clientY e) centerY in
    let theta := Fp.div A (Fp.mul A (- Dpad.rotation s) (Fp.PI A)) 180 in
    let dx :=
      if Dpad.rotation s !== 0
      then Fp.sub A (Fp.mul A x0 (Fp.cos A theta))
                    (Fp.mul A y0 (Fp.sin A theta))
      else x0 in
    let dy :=
      if Dpad.rotation s !== 0
      then Fp.add A (Fp.mul A x0 (Fp.sin A theta))
                    (Fp.mul A y0 (Fp.cos A theta))
      else y0 in
    let centerDistance :=
      Fp.sqrt A (Fp.add A (Fp.mul A dx dx) (Fp.mul A dy dy)) in
    (exists out : list Dpad.Callback,
       Fp.onDpadMove A e s =
       Some (Dpad.set_currentDirection Dpad.center s, out))
    <-> centerDistance <= Dpad.inputRegisterDistance s.
Proof.
  intros A rect e s Hp Hr centerX centerY x0 y0 theta dx dy centerDistance.
  pose proof (fp_dpad_move_pressed A rect e s Hp Hr) as Hm. cbv zeta in Hm.
  assert (Hd : Fp.dpadDirectionOf A s rect e =
               Dpad.classify (Fp.dpadAngle A dx dy) centerDistance
                 (Dpad.inputRegisterDistance s)).
  { unfold Fp.dpadDirectionOf, Fp.dpadOffset. cbv zeta.
    fold centerX centerY. fold x0 y0. fold theta.
    unfold centerDistance, dx, dy.
    now destruct (Dpad.rotation s !== 0). }
  rewrite <- classify_center_iff with (a := Fp.dpadAngle A dx dy).
  rewrite <- Hd. split.
  - intros [out Hout]. rewrite Hm in Hout.
    pose proof (f_equal (fun o : option (Dpad.DpadController
                                         * list Dpad.Callback) =>
                           match o with
                           | Some (s', _) => Dpad.currentDirection s'
                           | None => Dpad.center
                           end) Hout) as Hs.
    exact Hs.
  - intros Hc. rewrite Hm, Hc. now eexists.
Qed.

(** The dpad of the example, pressed, with a move 5 to the right of the
    center, in the arithmetic without rounding. *)
Lemma dpad_center_iff_dead_zone_witness :
  let A := Fp.exact in
  let rect := Dom.mkRect 0 0 100 100 in
  let s := Dpad.mkDpad 0.25 0 Dpad.center 1 (Some rect) 12.5 true in
  let e := Dom.mkPointer 1 55 50 in
  let centerX := Fp.add A (Dom.left rect) (Fp.div A (Dom.width rect) 2) in
  let centerY := Fp.add A (Dom.top rect) (Fp.div A (Dom.height rect) 2) in
  let x0 := Fp.sub A (Dom.clientX e) centerX in
  let y0 := Fp.sub A (Dom.clientY e) centerY in
  let theta := Fp.div A (Fp.mul A (- Dpad.rotation s) (Fp.PI A)) 180 in
  let dx :=
    if Dpad.rotation s !== 0
    then Fp.sub A (Fp.mul A x0 (Fp.cos A theta))
                  (Fp.mul A y0 (Fp.sin A theta))
    else x0 in
  let dy :=
    if Dpad.rotation s !== 0
    then Fp.add A (Fp.mul A x0 (Fp.sin A theta))
                  (Fp.mul A y0 (Fp.cos A theta))
    else y0 in
  let centerDistance :=
    Fp.sqrt A (Fp.add A (Fp.mul A dx dx) (Fp.mul A dy dy)) in
  (Dpad.isPressed s = true /\ Dpad.baseRect s = Some rect)
  /\ ((exists out : list Dpad.Callback,
         Fp.onDpadMove A e s =
         Some (Dpad.set_currentDirection Dpad.center s, out))
      <-> centerDistance <= Dpad.inputRegisterDistance s).
Proof.
  intros A rect s e. split; [split; reflexivity|].
  apply (dpad_center_iff_dead_zone A rect e s); reflexivity.
Defined.

(** ** Joystick: a full push along an axis *)

(** Without rotation and with a positive travel, a pointer straight to
    the right of the center, at the travel or beyond, emits exactly
    (1, 0); straight above it (0, 1), to the left (-1, 0) and below
    (0, -1). *)
Theorem joystick_full_deflection :
  forall maxd d : R,
    0 < maxd -> maxd <= d ->
    Joystick.mapOffset 0 maxd d 0 = (1, 0)
    /\ Joystick.mapOffset 0 maxd 0 (- d) = (0, 1)
    /\ Joystick.mapOffset 0 maxd (- d) 0 = (-1, 0)
    /\ Joystick.mapOffset 0 maxd 0 d = (0, -1).
Proof.
  intros maxd d Hm Hd.
  assert (Hmap : forall x y : R,
            x * x + y * y = d * d ->
            Joystick.mapOffset 0 maxd x y =
            (Joystick.round2 (x / d), Joystick.round2 (- y / d))).
  { intros x y Hxy.
    assert (Hh : JS.Math_hypot x y = d) by (apply Math_hypot_eq; lra).
    unfold Joystick.mapOffset.
    destruct (Rle_lt_dec d maxd) as [Hle|Hgt].
    - assert (Hdm : d = maxd) by lra.
      rewrite clamp_within by lra. now rewrite unrotate_0, Hdm.
    - rewrite clamp_outside by lra. rewrite Hh, unrotate_0.
      f_equal; f_equal; field; lra. }
  repeat split.
  - rewrite Hmap by ring.
    rewrite (round2_IZR_div 100), (round2_IZR_div 0) by (field; lra).
    f_equal; lra.
  - rewrite Hmap by ring.
    rewrite (round2_IZR_div 0), (round2_IZR_div 100) by (field; lra).
    f_equal; lra.
  - rewrite Hmap by ring.
    rewrite (round2_IZR_div (-100)), (round2_IZR_div 0) by (field; lra).
    f_equal; lra.
  - rewrite Hmap by ring.
    rewrite (round2_IZR_div 0), (round2_IZR_div (-100)) by (field; lra).
    f_equal; lra.
Qed.

(** A travel of 50 and a pointer 80 from the center. *)
Lemma joystick_full_deflection_witness :
  (0 < 50 /\ 50 <= 80)
  /\ Joystick.mapOffset 0 50 80 0 = (1, 0)
  /\ Joystick.mapOffset 0 50 0 (- 80) = (0, 1)
  /\ Joystick.mapOffset 0 50 (- 80) 0 = (-1, 0)
  /\ Joystick.mapOffset 0 50 0 80 = (0, -1).
Proof.
  assert (H : 0 < 50 /\ 50 <= 80) by lra.
  split; [exact H|].
  apply (joystick_full_deflection 50 80 (proj1 H) (proj2 H)).
Defined.
